(** * Analytic accounting models: a shallow embedding

    Source: [addons/analytic/models/analytic_account.py].

    The module declares five record types of the object-relational
    framework (distribution, tag, group, account, line) and a handful of
    methods on them.  Each method is embedded below as a function over an
    explicit store; values that the source reads from the framework (the
    context dictionary, the currency conversion service, the default
    name lookup, the SQL comparison operators) are either Section
    variables or small models with a doc comment saying so.

    Conventions.
    - Monetary amounts are exact integers (minor currency units, [Z]);
      the rounding behaviour of binary floating point is outside this
      development.
    - A table is a list of records, kept in the order in which the
      model's [search] returns them.
    - A method that can raise returns [option] (or a result type when
      the kind of error matters); [None] is "the call raised". *)

From Stdlib Require Import ZArith QArith Lia.
From stdpp Require Import gmap strings list fin_maps.

(** ** Python values and the context dictionary *)

Module Py.

(** The Python values that reach this module through the context and
    through search domains. *)
Inductive pyval :=
  | PNone
  | PBool (b : bool)
  | PInt (n : Z)
  | PStr (s : string)
  | PList (ids : list Z).

#[global] Instance pyval_eq_dec : EqDecision pyval.
Proof. solve_decision. Defined.

(** Python truthiness, as used by [if x:]. *)
Definition truthy (v : pyval) : bool :=
  match v with
  | PNone => false
  | PBool b => b
  | PInt n => negb (n =? 0)%Z
  | PStr s => negb (String.eqb s "")
  | PList ids => match ids with [] => false | _ => true end
  end.

(** [d.get(key, dflt)] *)
Definition dict_get (d : gmap string pyval) (key : string) (dflt : pyval) : pyval :=
  default dflt (d !! key).

(** [for x in v]: a list of ids is iterated; a number, a boolean or
    [None] cannot be.  A string, which the language iterates character
    by character, is not covered: it is given as a failure here, and no
    statement below is about it. *)
Definition iter (v : pyval) : option (list Z) :=
  match v with
  | PList ids => Some ids
  | _ => None
  end.

End Py.
Export Py.

(** ** Search domains

    The source builds search domains as Python lists mixing prefix
    operators (['&'], ['|'], ['!']) and [(field, operator, value)]
    triples, and hands them to [odoo.osv.expression] and to [search].
    That module is not part of the sources verified here. *)

Module Domain.

(** A domain term [(left, operator, right)]. *)
Definition leaf : Type := pyval * string * pyval.

Inductive token :=
  | TOp (o : string)
  | TLeaf (l : leaf).

#[global] Instance token_eq_dec : EqDecision token.
Proof. solve_decision. Defined.

Definition domain : Type := list token.

Definition NOT_OPERATOR : string := "!".
Definition OR_OPERATOR : string := "|".
Definition AND_OPERATOR : string := "&".

(** Modelled from the spec: the constants [TRUE_LEAF], [FALSE_LEAF],
    [TRUE_DOMAIN] and [FALSE_DOMAIN] of [odoo.osv.expression], missing
    from the sources; they are the neutral and absorbing filters of the
    "composable filter predicates (AND/OR/field-operator-value
    triples)". *)
Definition TRUE_LEAF : leaf := (PInt 1, "=", PInt 1).
Definition FALSE_LEAF : leaf := (PInt 0, "=", PInt 1).
Definition TRUE_DOMAIN : domain := [TLeaf TRUE_LEAF].
Definition FALSE_DOMAIN : domain := [TLeaf FALSE_LEAF].

(** Modelled from the spec: the loop of [expression.combine], missing
    from the sources.  It concatenates the given domains, skipping the
    neutral one and stopping with the absorbing one ([inl]). *)
Fixpoint combine_scan (unit zero : domain) (domains : list domain)
    (result : domain) (count : nat) : domain + (domain * nat) :=
  match domains with
  | [] => inr (result, count)
  | d :: ds =>
      if decide (d = unit) then combine_scan unit zero ds result count
      else if decide (d = zero) then inl zero
      else match d with
           | [] => combine_scan unit zero ds result count
           | _ :: _ => combine_scan unit zero ds (result ++ d) (S count)
           end
  end.

(** Modelled from the spec: [expression.combine], missing from the
    sources: [count - 1] copies of the operator in front of the
    concatenated domains. *)
Definition combine (operator : string) (unit zero : domain)
    (domains : list domain) : domain :=
  match combine_scan unit zero domains [] 0 with
  | inl z => z
  | inr (result, count) => replicate (count - 1) (TOp operator) ++ result
  end.

(** Modelled from the spec: [expression.AND] and [expression.OR],
    missing from the sources ("composable filter predicates"). *)
Definition AND (domains : list domain) : domain :=
  combine AND_OPERATOR TRUE_DOMAIN FALSE_DOMAIN domains.

Definition OR (domains : list domain) : domain :=
  combine OR_OPERATOR FALSE_DOMAIN TRUE_DOMAIN domains.

Definition op_arity (o : string) : Z :=
  if decide (o = NOT_OPERATOR) then 1
  else if decide (o = AND_OPERATOR) then 2
  else if decide (o = OR_OPERATOR) then 2
  else 0.

(** Modelled from the spec: the scan of [expression.normalize_domain],
    missing from the sources.  [extra] counts the ['&'] that the scan
    puts in front whenever a term starts although no operand is
    expected: consecutive terms are implicitly conjoined. *)
Fixpoint normalize_scan (d : domain) (extra : nat) (expected : Z) : nat * Z :=
  match d with
  | [] => (extra, expected)
  | t :: rest =>
      let extra' := if (expected =? 0)%Z then S extra else extra in
      let expected' := if (expected =? 0)%Z then 1%Z else expected in
      match t with
      | TLeaf _ => normalize_scan rest extra' (expected' - 1)%Z
      | TOp o => normalize_scan rest extra' (expected' + op_arity o - 1)%Z
      end
  end.

(** Modelled from the spec: [expression.normalize_domain], missing from
    the sources; [None] is its failed assertion on a domain that is not
    syntactically correct. *)
Definition normalize_domain (d : domain) : option domain :=
  match d with
  | [] => Some TRUE_DOMAIN
  | _ :: _ =>
      let '(extra, expected) := normalize_scan d 0 1 in
      if (expected =? 0)%Z then Some (replicate extra (TOp AND_OPERATOR) ++ d)
      else None
  end.

Section Evaluation.

(** The records of one model and the meaning of a term on a record;
    [None] when the term is not supported on the model. *)
Context {R : Type}.
Variable field_leaf : leaf -> R -> option bool.

Definition leaf_holds (l : leaf) (r : R) : option bool :=
  if decide (l = TRUE_LEAF) then Some true
  else if decide (l = FALSE_LEAF) then Some false
  else field_leaf l r.

(** Modelled from the spec: one step of the stack machine with which
    the framework turns a normalized prefix domain into a condition,
    reading it from its last token to its first. *)
Definition eval_step (r : R) (t : token) (stack : list bool) : option (list bool) :=
  match t with
  | TLeaf l => v ← leaf_holds l r; Some (v :: stack)
  | TOp o =>
      if decide (o = NOT_OPERATOR) then
        match stack with
        | q :: st => Some (negb q :: st)
        | [] => None
        end
      else
        match stack with
        | q1 :: q2 :: st =>
            if decide (o = AND_OPERATOR) then Some ((q1 && q2) :: st)
            else if decide (o = OR_OPERATOR) then Some ((q1 || q2) :: st)
            else None
        | _ => None
        end
  end.

Fixpoint eval_tokens (r : R) (d : domain) (stack : list bool) : option (list bool) :=
  match d with
  | [] => Some stack
  | t :: rest => st ← eval_tokens r rest stack; eval_step r t st
  end.

(** Modelled from the spec: whether a record satisfies a domain. *)
Definition holds (d : domain) (r : R) : option bool :=
  n ← normalize_domain d;
  st ← eval_tokens r n [];
  match st with
  | [v] => Some v
  | _ => None
  end.

(** Modelled from the spec: the records of a table, given in the
    model's order, that satisfy a domain. *)
Fixpoint select (d : domain) (table : list R) : option (list R) :=
  match table with
  | [] => Some []
  | r :: rest =>
      b ← holds d r;
      found ← select d rest;
      Some (if b : bool then r :: found else found)
  end.

(** Modelled from the spec: the "result cap" of a search; the framework
    takes both [None] and [0] as "no cap". *)
Definition apply_limit (limit : option nat) (rs : list R) : list R :=
  match limit with
  | Some (S n) => take (S n) rs
  | _ => rs
  end.

(** Modelled from the spec: [search(domain, limit=limit)]. *)
Definition search (d : domain) (limit : option nat) (table : list R) : option (list R) :=
  _ ← normalize_domain d;
  found ← select d table;
  Some (apply_limit limit found).

End Evaluation.

End Domain.
Export Domain.

(** ** Errors *)

Module Errors.

Inductive exn :=
  | ValidationError (msg : string)
  | IntegrityError
  | MissingError.

Inductive outcome (A : Type) :=
  | Ok (a : A)
  | Raise (e : exn).
Arguments Ok {A} a.
Arguments Raise {A} e.

Definition is_ok {A} (o : outcome A) : bool :=
  match o with Ok _ => true | Raise _ => false end.

Definition is_validation_error {A} (o : outcome A) : bool :=
  match o with Raise (ValidationError _) => true | _ => false end.

End Errors.
Export Errors.

(** ** [account.analytic.distribution] *)

Module AccountAnalyticDistribution.

Record distribution := {
  account_id : Z;      (* Many2one, required *)
  percentage : Q;      (* Float, required, default 100.0 *)
  tag_id : Z           (* Many2one, required *)
}.

(** The conditions that occur in the [CHECK(...)] clauses of the model. *)
Inductive sql_check :=
  | SqlGe (column : string) (bound : Q)
  | SqlLe (column : string) (bound : Q)
  | SqlAnd (c1 c2 : sql_check).

(** [_sql_constraints]: name, definition, message. *)
Definition _sql_constraints : list (string * sql_check * string) :=
  [("check_percentage",
    SqlAnd (SqlGe "percentage" 0) (SqlLe "percentage" 100),
    "The percentage of an analytic distribution should be between 0 and 100.")].

(** The numeric columns of the table. *)
Definition column (r : distribution) (c : string) : option Q :=
  if decide (c = "percentage") then Some (percentage r) else None.

Fixpoint check_holds (c : sql_check) (r : distribution) : option bool :=
  match c with
  | SqlGe col bound => v ← column r col; Some (Qle_bool bound v)
  | SqlLe col bound => v ← column r col; Some (Qle_bool v bound)
  | SqlAnd c1 c2 => b1 ← check_holds c1 r; b2 ← check_holds c2 r; Some (b1 && b2)
  end.

(** Modelled from the spec: the data store rejects a row that violates
    one of the model's constraints with the constraint's message
    ("enforced at the data-store level", "raised synchronously on
    constraint violation"). *)
Fixpoint enforce (cs : list (string * sql_check * string)) (r : distribution)
    : outcome unit :=
  match cs with
  | [] => Ok ()
  | (_, c, msg) :: rest =>
      match check_holds c r with
      | Some true => enforce rest r
      | _ => Raise (ValidationError msg)
      end
  end.

(** The values given to [create]; an absent key is [None]. *)
Record distribution_vals := {
  v_account_id : option Z;
  v_percentage : option Q;
  v_tag_id : option Z
}.

(** Modelled from the spec: [create] on the model: required fields,
    the declared default of [percentage], then the constraints; on
    success the row is added to the table. *)
Definition create (table : list distribution) (vals : distribution_vals)
    : outcome (list distribution) :=
  match v_account_id vals, v_tag_id vals with
  | Some a, Some t =>
      let r := {| account_id := a;
                  percentage := default (100 : Q) (v_percentage vals);
                  tag_id := t |} in
      match enforce _sql_constraints r with
      | Ok _ => Ok (table ++ [r])
      | Raise e => Raise e
      end
  | _, _ => Raise IntegrityError
  end.

End AccountAnalyticDistribution.

(** ** [account.analytic.group] *)

Module AccountAnalyticGroup.

Record group := {
  name : string;              (* Char, required *)
  parent_id : option Z;       (* Many2one to the same model *)
  complete_name : string      (* stored computed field *)
}.

Definition set_complete_name (s : string) (g : group) : group :=
  {| name := name g; parent_id := parent_id g; complete_name := s |}.

(** The body of the loop of [_compute_complete_name] for one group of
    the record set; [None] when a record that is read does not exist. *)
Definition compute_complete_name_of (store : gmap Z group) (gid : Z)
    : option (gmap Z group) :=
  g ← store !! gid;
  match parent_id g with
  | Some p =>
      parent ← store !! p;
      Some (<[gid := set_complete_name (complete_name parent +:+ " / " +:+ name g) g]> store)
  | None =>
      Some (<[gid := set_complete_name (name g) g]> store)
  end.

(** [_compute_complete_name(self)]: [for group in self: ...]. *)
Fixpoint _compute_complete_name (store : gmap Z group) (self : list Z)
    : option (gmap Z group) :=
  match self with
  | [] => Some store
  | gid :: rest =>
      store' ← compute_complete_name_of store gid;
      _compute_complete_name store' rest
  end.

End AccountAnalyticGroup.

(** ** [res.partner] (a framework model; only what the accounts read) *)

Module ResPartner.

Record partner := {
  id : Z;
  name : string;              (* Char; taken as set: a partner without a
                                 name is not covered *)
  commercial_partner_id : Z
}.

(** [browse(pid)] on a table. *)
Definition browse (table : list partner) (pid : Z) : option partner :=
  List.find (fun p => (id p =? pid)%Z) table.

End ResPartner.

(** ** The fields of [account.analytic.line] *)

Module LineFields.

Record line := {
  id : Z;
  name : string;            (* Char, required *)
  date : string;            (* Date, required; an ISO 'YYYY-MM-DD' string *)
  amount : Z;               (* Monetary, required *)
  account_id : Z;           (* Many2one, required *)
  user_id : pyval;          (* Many2one, default=_default_user *)
  tag_ids : list Z;         (* Many2many *)
  company_id : Z;           (* Many2one, required *)
  currency_id : Z           (* related company_id.currency_id, stored *)
}.

Definition mem (x : Z) (l : list Z) : bool := bool_decide (x ∈ l).

(** Modelled from the spec: the meaning of the terms that the balance
    aggregator puts in its filter, on one line: "account in given set",
    "date ≥ from_date", "date ≤ to_date", "tag matches any of the given
    tags", "company in given set".  On ISO date strings the
    lexicographic order is the calendar order. *)
Definition line_leaf (l : leaf) (r : line) : option bool :=
  match l with
  | (PStr f, op, PList ids) =>
      if decide (f = "account_id" ∧ op = "in") then Some (mem (account_id r) ids)
      else if decide (f = "tag_ids" ∧ op = "in") then
        Some (existsb (fun t => mem t ids) (tag_ids r))
      else if decide (f = "company_id" ∧ op = "in") then Some (mem (company_id r) ids)
      else None
  | (PStr f, op, PStr d) =>
      if decide (f = "date" ∧ op = ">=") then Some (String.leb d (date r))
      else if decide (f = "date" ∧ op = "<=") then Some (String.leb (date r) d)
      else None
  | _ => None
  end.

End LineFields.

(** ** [account.analytic.account] *)

Module AccountAnalyticAccount.

Import LineFields.

Record account := {
  id : Z;
  name : string;              (* Char, required *)
  code : option string;       (* Char; [None] is the unset value False *)
  company_id : option Z;      (* Many2one *)
  partner_id : option Z       (* Many2one to res.partner *)
}.

(** The three computed, non-stored fields that
    [_compute_debit_credit_balance] assigns on one account. *)
Record balances := {
  debit : Z;
  credit : Z;
  balance : Z
}.

(** *** The line filter of [_compute_debit_credit_balance] *)

(** [[[('tag_ids', 'in', [tag])] for tag in tags]] *)
Definition tag_domains (tags : list Z) : list domain :=
  map (fun tag => [TLeaf (PStr "tag_ids", "in", PList [tag])]) tags.

(** The statements that build [domain], in the order of the source;
    [None] when [context['tag_ids']] cannot be iterated. *)
Definition build_domain (context : gmap string pyval) (ids : list Z) : option domain :=
  let domain := [TLeaf (PStr "account_id", "in", PList ids)] in
  let domain :=
    if truthy (dict_get context "from_date" (PBool false))
    then domain ++ [TLeaf (PStr "date", ">=", dict_get context "from_date" PNone)]
    else domain in
  let domain :=
    if truthy (dict_get context "to_date" (PBool false))
    then domain ++ [TLeaf (PStr "date", "<=", dict_get context "to_date" PNone)]
    else domain in
  domain ←
    (if truthy (dict_get context "tag_ids" PNone)
     then tags ← iter (dict_get context "tag_ids" PNone);
          Some (AND [domain; OR (tag_domains tags)])
     else Some domain);
  Some (if truthy (dict_get context "company_ids" PNone)
        then domain ++ [TLeaf (PStr "company_id", "in", dict_get context "company_ids" PNone)]
        else domain).

Section Aggregation.

(** The currency conversion service:
    [browse(from_currency).compute(amount, to_currency)]. *)
Variable compute : Z -> Z -> Z -> Z.

(** [self.env.user.company_id.currency_id] *)
Variable user_currency : Z.

(** [data[key] += amount]; the key must be there. *)
Definition dict_add (data : gmap Z Z) (key : Z) (amount : Z) : option (gmap Z Z) :=
  v ← data !! key;
  Some (<[key := (v + amount)%Z]> data).

(** The loop over [account_amounts]. *)
Fixpoint accumulate (account_amounts : list line) (data_debit data_credit : gmap Z Z)
    : option (gmap Z Z * gmap Z Z) :=
  match account_amounts with
  | [] => Some (data_debit, data_credit)
  | account_amount :: rest =>
      let amount :=
        compute (currency_id account_amount) (amount account_amount) user_currency in
      if (amount <? 0)%Z then
        data_debit' ← dict_add data_debit (account_id account_amount) amount;
        accumulate rest data_debit' data_credit
      else
        data_credit' ← dict_add data_credit (account_id account_amount) amount;
        accumulate rest data_debit data_credit'
  end.

(** The final loop [for account in self], for one account. *)
Definition assign (data_debit data_credit : gmap Z Z) (account : Z) : Z * balances :=
  let debit := Z.abs (default 0%Z (data_debit !! account)) in
  let credit := default 0%Z (data_credit !! account) in
  (account, {| debit := debit; credit := credit; balance := (credit - debit)%Z |}).

(** The part of the method after [search_read]: from the rows found to
    the values assigned on each account of [self]. *)
Definition aggregate (account_amounts : list line) (self : list Z)
    : option (list (Z * balances)) :=
  let account_ids : gset Z := list_to_set (map account_id account_amounts) in
  let data_debit := gset_to_gmap 0%Z account_ids in
  let data_credit := gset_to_gmap 0%Z account_ids in
  '(data_debit, data_credit) ← accumulate account_amounts data_debit data_credit;
  Some (map (assign data_debit data_credit) self).

(** [_compute_debit_credit_balance(self)] on the accounts [self], with
    the table of lines and the context of the environment. *)
Definition _compute_debit_credit_balance (lines : list line)
    (context : gmap string pyval) (self : list Z) : option (list (Z * balances)) :=
  domain ← build_domain context self;
  account_amounts ← search line_leaf domain None lines;
  aggregate account_amounts self.

End Aggregation.

(** *** Display and lookup *)

(** The body of the loop of [name_get] for one account; [None] when a
    partner that is read does not exist. *)
Definition name_get_of (partners : list ResPartner.partner) (analytic : account)
    : option (Z * string) :=
  let name := name analytic in
  let name :=
    match code analytic with
    | Some c => if truthy (PStr c) then (("[" +:+ c) +:+ "] ") +:+ name else name
    | None => name
    end in
  name ←
    match partner_id analytic with
    | Some pid =>
        partner ← ResPartner.browse partners pid;
        commercial ← ResPartner.browse partners (ResPartner.commercial_partner_id partner);
        Some ((name +:+ " - ") +:+ ResPartner.name commercial)
    | None => Some name
    end;
  Some (id analytic, name).

(** [name_get(self)] *)
Definition name_get (partners : list ResPartner.partner) (self : list account)
    : option (list (Z * string)) :=
  mapM (name_get_of partners) self.

Section NameSearch.

(** The comparison of a column value with the searched string under an
    operator of the data store (['='], ['like'], ['ilike'], ...):
    operator, column value, searched string. *)
Variable sql_match : string -> string -> string -> bool.

(** The framework's default [name_search], reached through [super()]. *)
Variable super_name_search :
  string -> option domain -> string -> option nat -> option (list (Z * string)).

(** Modelled from the spec: the meaning on an account of the terms that
    [name_search] builds: "code OR name matches", "linked partner" in
    the partners found.  An unset code matches nothing. *)
Definition account_leaf (l : leaf) (a : account) : option bool :=
  match l with
  | (PStr f, op, PStr s) =>
      if decide (f = "code") then
        Some (match code a with Some c => sql_match op c s | None => false end)
      else if decide (f = "name") then Some (sql_match op (name a) s)
      else None
  | (PStr f, op, PList ids) =>
      if decide (f = "partner_id" ∧ op = "in") then
        Some (match partner_id a with Some p => mem p ids | None => false end)
      else None
  | _ => None
  end.

(** Modelled from the spec: the meaning of a term on the partner's name
    ("a sub-lookup of partners by name"). *)
Definition partner_leaf (l : leaf) (p : ResPartner.partner) : option bool :=
  match l with
  | (PStr f, op, PStr s) =>
      if decide (f = "name") then Some (sql_match op (ResPartner.name p) s) else None
  | _ => None
  end.

Definition name_search_operators : list string :=
  ["ilike"; "like"; "="; "=like"; "=ilike"].

(** [name_search(self, name, args, operator, limit)] over the tables of
    accounts and partners. *)
Definition name_search (accounts : list account) (partners : list ResPartner.partner)
    (name : string) (args : option domain) (operator : string) (limit : option nat)
    : option (list (Z * string)) :=
  if negb (bool_decide (operator ∈ name_search_operators)) then
    super_name_search name args operator limit
  else
    let args := default [] args in
    let domain := [TOp "|"; TLeaf (PStr "code", operator, PStr name);
                   TLeaf (PStr "name", operator, PStr name)] in
    found ← search partner_leaf [TLeaf (PStr "name", operator, PStr name)] limit partners;
    let domain :=
      match found with
      | [] => domain
      | _ :: _ =>
          [TOp "|"] ++ domain ++ [TLeaf (PStr "partner_id", "in", PList (map ResPartner.id found))]
      end in
    recs ← search account_leaf (domain ++ args) limit accounts;
    name_get partners recs.

End NameSearch.

End AccountAnalyticAccount.

(** ** [account.analytic.line] *)

Module AccountAnalyticLine.

Import LineFields.

(** What the methods read from [self.env]. *)
Record environment := {
  context : gmap string pyval;      (* self.env.context *)
  uid : Z;                          (* self.env.user.id *)
  user_company : Z;                 (* self.env.user.company_id *)
  today : string;                   (* fields.Date.context_today *)
  company_currency : Z -> Z;        (* company_id.currency_id *)
  accounts : list AccountAnalyticAccount.account
}.

(** [_default_user(self)] *)
Definition _default_user (env : environment) : pyval :=
  dict_get (context env) "user_id" (PInt (uid env)).

(** [line.account_id] as a record. *)
Definition browse_account (env : environment) (aid : Z)
    : option AccountAnalyticAccount.account :=
  List.find (fun a => (AccountAnalyticAccount.id a =? aid)%Z) (accounts env).

Definition company_message : string :=
  "The selected account belongs to another company that the one you're trying to create an analytic item for".

(** [_check_company_id(self)] *)
Fixpoint _check_company_id (env : environment) (self : list line) : outcome unit :=
  match self with
  | [] => Ok ()
  | line :: rest =>
      match browse_account env (account_id line) with
      | None => Raise MissingError
      | Some account =>
          match AccountAnalyticAccount.company_id account with
          | Some c =>
              if negb (company_id line =? c)%Z
              then Raise (ValidationError company_message)
              else _check_company_id env rest
          | None => _check_company_id env rest
          end
      end
  end.

(** The values given to [create] and [write]; an absent key is [None]. *)
Record line_vals := {
  v_name : option string;
  v_date : option string;
  v_amount : option Z;
  v_account_id : option Z;
  v_user_id : option pyval;
  v_tag_ids : option (list Z);
  v_company_id : option Z
}.

(** [@api.constrains('company_id', 'account_id')]: the check runs when
    one of the two fields is among the values written. *)
Definition constrains_triggered (vals : line_vals) : bool :=
  bool_decide (is_Some (v_company_id vals) ∨ is_Some (v_account_id vals)).

Definition next_id (table : list line) : Z :=
  (1 + foldr Z.max 0 (map id table))%Z.

(** Modelled from the spec: [create] on the model: the declared
    defaults fill the absent values ("date defaults to today, company
    defaults to the acting user's company"), the required values must
    be there, and the constraint is checked on the new record; on a
    validation error nothing is stored. *)
Definition create (env : environment) (table : list line) (vals : line_vals)
    : outcome (list line) :=
  match v_name vals, v_account_id vals with
  | Some n, Some a =>
      let company := default (user_company env) (v_company_id vals) in
      let r := {| id := next_id table;
                  name := n;
                  date := default (today env) (v_date vals);
                  amount := default 0%Z (v_amount vals);
                  account_id := a;
                  user_id := default (_default_user env) (v_user_id vals);
                  tag_ids := default [] (v_tag_ids vals);
                  company_id := company;
                  currency_id := company_currency env company |} in
      match _check_company_id env [r] with
      | Ok _ => Ok (table ++ [r])
      | Raise e => Raise e
      end
  | _, _ => Raise IntegrityError
  end.

(** The new values of one record under [write]. *)
Definition update (env : environment) (vals : line_vals) (r : line) : line :=
  let company := default (company_id r) (v_company_id vals) in
  {| id := id r;
     name := default (name r) (v_name vals);
     date := default (date r) (v_date vals);
     amount := default (amount r) (v_amount vals);
     account_id := default (account_id r) (v_account_id vals);
     user_id := default (user_id r) (v_user_id vals);
     tag_ids := default (tag_ids r) (v_tag_ids vals);
     company_id := company;
     currency_id := company_currency env company |}.

(** Modelled from the spec: [write] on the records [ids]: the values
    are applied, then the constraint is checked on the written records
    when one of its fields was written; a validation error aborts "the
    in-progress write" and nothing is stored. *)
Definition write (env : environment) (table : list line) (ids : list Z)
    (vals : line_vals) : outcome (list line) :=
  let table' :=
    map (fun r => if mem (id r) ids then update env vals r else r) table in
  if constrains_triggered vals then
    match _check_company_id env (filter (fun r => id r ∈ ids) table') with
    | Ok _ => Ok table'
    | Raise e => Raise e
    end
  else Ok table'.

(** Modelled from the spec: "writes are all-or-nothing": the table after
    an operation is the new one on success and the old one on error. *)
Definition committed (table : list line) (result : outcome (list line)) : list line :=
  match result with
  | Ok table' => table'
  | Raise _ => table
  end.

End AccountAnalyticLine.

(** * Specifications

    The closed forms that the claims give, written from the words of
    the specification; the theorems below compare them with the
    embedding of the source. *)

Module Spec.

Import LineFields AccountAnalyticAccount.

Section Balances.

Variable compute : Z -> Z -> Z -> Z.
Variable user_currency : Z.

(** The converted amounts of the rows of one account, in row order. *)
Definition converted_amounts (rows : list line) (a : Z) : list Z :=
  map (fun r => compute (currency_id r) (amount r) user_currency)
      (filter (fun r => account_id r = a) rows).

Definition total (amounts : list Z) : Z := foldr Z.add 0%Z amounts.

(** The sum of the negative, resp. non-negative, converted amounts. *)
Definition negative_total (rows : list line) (a : Z) : Z :=
  total (filter (fun x => (x < 0)%Z) (converted_amounts rows a)).

Definition nonnegative_total (rows : list line) (a : Z) : Z :=
  total (filter (fun x => (0 <= x)%Z) (converted_amounts rows a)).

(** "sum negative converted amounts into debit (stored as absolute
    value)" *)
Definition spec_debit (rows : list line) (a : Z) : Z :=
  Z.abs (negative_total rows a).

(** "and non-negative converted amounts into credit" *)
Definition spec_credit (rows : list line) (a : Z) : Z :=
  nonnegative_total rows a.

(** "balance = credit − debit" *)
Definition spec_balances (rows : list line) (a : Z) : balances :=
  {| debit := spec_debit rows a;
     credit := spec_credit rows a;
     balance := (spec_credit rows a - spec_debit rows a)%Z |}.

End Balances.

End Spec.


(** ** Filters as trees

    A domain in prefix form is the flattening of a sequence of trees,
    implicitly conjoined.  The trees give the filter of the balance
    aggregator a meaning that can be compared with the one the
    evaluation of its token list has. *)

Module DomainTrees.

Inductive tree :=
  | Term (l : leaf)
  | And (t1 t2 : tree)
  | Or (t1 t2 : tree).

Fixpoint flatten (t : tree) : domain :=
  match t with
  | Term l => [TLeaf l]
  | And t1 t2 => TOp AND_OPERATOR :: flatten t1 ++ flatten t2
  | Or t1 t2 => TOp OR_OPERATOR :: flatten t1 ++ flatten t2
  end.

Definition flatten_all (ts : list tree) : domain :=
  concat (map flatten ts).

Section Meaning.

Context {R : Type}.
Variable field_leaf : leaf -> R -> option bool.

Fixpoint denote (r : R) (t : tree) : option bool :=
  match t with
  | Term l => leaf_holds field_leaf l r
  | And t1 t2 => v1 ← denote r t1; v2 ← denote r t2; Some (v1 && v2)
  | Or t1 t2 => v1 ← denote r t1; v2 ← denote r t2; Some (v1 || v2)
  end.

End Meaning.

(** The disjunction of a non-empty list of terms, nested to the left. *)
Fixpoint any_of (t : tree) (ls : list leaf) : tree :=
  match ls with
  | [] => t
  | l :: rest => any_of (Or t (Term l)) rest
  end.

(** A domain that starts with something else than the neutral and the
    absorbing term. *)
Definition starts_properly (d : domain) : Prop :=
  match d with
  | tok :: _ => tok ≠ TLeaf TRUE_LEAF ∧ tok ≠ TLeaf FALSE_LEAF
  | [] => False
  end.

End DomainTrees.

Module FilterSpec.

Import LineFields.

(** A filter hint is supplied when its key is in the context with a
    value that counts as true. *)
Definition supplied (context : gmap string pyval) (key : string) : option pyval :=
  match context !! key with
  | Some v => if truthy v then Some v else None
  | None => None
  end.

Definition is_date (v : pyval) : bool :=
  match v with PStr _ => true | _ => false end.

Definition is_ids (v : pyval) : bool :=
  match v with PList _ => true | _ => false end.

(** The hints that are supplied have the type that the filter expects:
    dates for [from_date] and [to_date], lists of ids for [tag_ids] and
    [company_ids]. *)
Definition well_typed (context : gmap string pyval) : bool :=
  from_option is_date true (supplied context "from_date")
  && from_option is_date true (supplied context "to_date")
  && from_option is_ids true (supplied context "tag_ids")
  && from_option is_ids true (supplied context "company_ids").

(** "account in given set; AND date ≥ from_date if supplied; AND date ≤
    to_date if supplied; AND (tag matches any of the given tags) if tags
    supplied; AND company in given set if supplied" *)
Definition spec_filter (context : gmap string pyval) (ids : list Z) (r : line) : bool :=
  mem (account_id r) ids
  && match supplied context "from_date" with
     | Some (PStr d) => String.leb d (date r)
     | _ => true
     end
  && match supplied context "to_date" with
     | Some (PStr d) => String.leb (date r) d
     | _ => true
     end
  && match supplied context "tag_ids" with
     | Some (PList tags) => existsb (fun tag => mem tag (tag_ids r)) tags
     | _ => true
     end
  && match supplied context "company_ids" with
     | Some (PList companies) => mem (company_id r) companies
     | _ => true
     end.

(** The same filter as a sequence of trees, one per condition that is
    present, in the order of the conjunction. *)
Definition hint_leaves (context : gmap string pyval) (key field op : string) : list leaf :=
  match supplied context key with
  | Some v => [(PStr field, op, v)]
  | None => []
  end.

Definition tag_leaf (tag : Z) : leaf := (PStr "tag_ids", "in", PList [tag]).

Definition tag_trees (context : gmap string pyval) : list DomainTrees.tree :=
  match supplied context "tag_ids" with
  | Some (PList (tag :: tags)) =>
      [DomainTrees.any_of (DomainTrees.Term (tag_leaf tag)) (map tag_leaf tags)]
  | _ => []
  end.

Definition filter_trees (context : gmap string pyval) (ids : list Z)
    : list DomainTrees.tree :=
  DomainTrees.Term (PStr "account_id", "in", PList ids)
  :: map DomainTrees.Term (hint_leaves context "from_date" "date" ">=")
  ++ map DomainTrees.Term (hint_leaves context "to_date" "date" "<=")
  ++ tag_trees context
  ++ map DomainTrees.Term (hint_leaves context "company_ids" "company_id" "in").

End FilterSpec.

Module GroupSpec.

Import AccountAnalyticGroup.

Definition parent_of (store : gmap Z group) (gid : Z) : option Z :=
  g ← store !! gid; parent_id g.

(** The group and, if it has one, its parent are records of the store. *)
Definition record_exists (store : gmap Z group) (gid : Z) : bool :=
  match store !! gid with
  | Some g =>
      match parent_id g with
      | Some p => bool_decide (is_Some (store !! p))
      | None => true
      end
  | None => false
  end.

Definition records_exist (store : gmap Z group) (self : list Z) : bool :=
  forallb (record_exists store) self.

(** The record set lists no group before its parent: the parent of a
    group is neither the group itself nor among the groups that come
    after it. *)
Fixpoint parents_first (store : gmap Z group) (self : list Z) : bool :=
  match self with
  | [] => true
  | gid :: rest =>
      match parent_of store gid with
      | Some p => negb (bool_decide (p ∈ gid :: rest))
      | None => true
      end && parents_first store rest
  end.

(** "complete_name(g) == complete_name(parent(g)) + " / " + name(g) when
    parent exists, else name(g)", read in one store. *)
Definition named_after_parent (store : gmap Z group) (gid : Z) : Prop :=
  exists g,
    store !! gid = Some g ∧
    match parent_id g with
    | Some p =>
        exists parent, store !! p = Some parent ∧
          complete_name g = complete_name parent +:+ " / " +:+ name g
    | None => complete_name g = name g
    end.

(** What [_compute_complete_name] does not write: the name and the
    parent of a group. *)
Definition skeleton (g : group) : string * option Z := (name g, parent_id g).

(** The names of a list of groups joined by " / ". *)
Definition join_path (names : list string) : string :=
  match names with
  | [] => ""
  | n :: rest => fold_left (fun path m => path +:+ " / " +:+ m) rest n
  end.

Definition names_of (store : gmap Z group) (gids : list Z) : list string :=
  omap (fun gid => name <$> store !! gid) gids.

(** A line of descent: every group of the list is a record whose parent
    is the group before it, the first one having [parent]. *)
Fixpoint descends (store : gmap Z group) (parent : option Z) (chain : list Z) : bool :=
  match chain with
  | [] => true
  | gid :: rest =>
      match store !! gid with
      | Some g => bool_decide (parent_id g = parent)
      | None => false
      end && descends store (Some gid) rest
  end.

End GroupSpec.

Module DisplaySpec.

Import AccountAnalyticAccount.

(** "[code] " -- "code segment omitted if absent" *)
Definition code_segment (a : account) : string :=
  match code a with
  | Some c => if String.eqb c "" then "" else "[" +:+ c +:+ "] "
  | None => ""
  end.

(** " - commercial partner name" -- "omitted if no partner"; [None]
    when the partner or its commercial partner is not a record. *)
Definition partner_segment (partners : list ResPartner.partner) (a : account)
    : option string :=
  match partner_id a with
  | Some pid =>
      partner ← ResPartner.browse partners pid;
      commercial ← ResPartner.browse partners (ResPartner.commercial_partner_id partner);
      Some (" - " +:+ ResPartner.name commercial)
  | None => Some ""
  end.

(** "display label = "[code] name" + " - commercial partner name"" *)
Definition spec_label (partners : list ResPartner.partner) (a : account)
    : option (Z * string) :=
  segment ← partner_segment partners a;
  Some (id a, code_segment a +:+ name a +:+ segment).

(** The partner that an account links, if any, and the commercial
    partner of that partner are records. *)
Definition partner_resolves (partners : list ResPartner.partner) (a : account) : bool :=
  match partner_id a with
  | Some pid =>
      match ResPartner.browse partners pid with
      | Some partner =>
          bool_decide (is_Some (ResPartner.browse partners
                                  (ResPartner.commercial_partner_id partner)))
      | None => false
      end
  | None => true
  end.

End DisplaySpec.

Module ConstraintSpec.

Import LineFields AccountAnalyticLine.

(** "a Line's company must equal its Account's company whenever the
    Account has a company set": the lines that break it. *)
Definition mismatch (env : environment) (r : line) : bool :=
  match browse_account env (account_id r) with
  | Some account =>
      match AccountAnalyticAccount.company_id account with
      | Some c => negb (company_id r =? c)%Z
      | None => false
      end
  | None => false
  end.



(** No line of the table breaks the constraint. *)
Definition no_mismatch (env : environment) (table : list line) : bool :=
  forallb (fun r => negb (mismatch env r)) table.

End ConstraintSpec.

Module DistributionSpec.

Import AccountAnalyticDistribution.

(** "0 ≤ percentage ≤ 100" *)
Definition in_range (r : distribution) : Prop :=
  (0 <= percentage r)%Q ∧ (percentage r <= 100)%Q.

End DistributionSpec.

Module LookupSpec.

Import AccountAnalyticAccount.

Section Lookup.

Variable sql_match : string -> string -> string -> bool.

(** "accounts whose code OR name matches" *)
Definition code_or_name_matches (operator name : string) (a : account) : bool :=
  match code a with
  | Some c => sql_match operator c name
  | None => false
  end
  || sql_match operator (AccountAnalyticAccount.name a) name.

(** "OR whose linked partner's name matches" *)
Definition partner_name_matches (partners : list ResPartner.partner)
    (operator name : string) (a : account) : bool :=
  match partner_id a with
  | Some pid =>
      match ResPartner.browse partners pid with
      | Some p => sql_match operator (ResPartner.name p) name
      | None => false
      end
  | None => false
  end.

(** The lookup as the specification words it: the accounts whose code,
    name or partner's name matches, "limited to a result cap". *)
Definition spec_name_search (accounts : list account)
    (partners : list ResPartner.partner) (name operator : string)
    (limit : option nat) : option (list (Z * string)) :=
  name_get partners
    (apply_limit limit
       (filter (fun a => code_or_name_matches operator name a
                         || partner_name_matches partners operator name a = true)
               accounts)).

(** "a sub-lookup of partners by name", with the cap that the method
    gives it. *)
Definition partners_found (partners : list ResPartner.partner)
    (operator name : string) (limit : option nat) : list ResPartner.partner :=
  apply_limit limit
    (filter (fun p => sql_match operator (ResPartner.name p) name = true) partners).

(** The linked partner is one of the partners found. *)
Definition partner_found (partners : list ResPartner.partner)
    (operator name : string) (limit : option nat) (a : account) : bool :=
  match partner_id a with
  | Some p => LineFields.mem p (map ResPartner.id (partners_found partners operator name limit))
  | None => false
  end.

End Lookup.

End LookupSpec.

(** * Example data

    The concrete records used by the examples of the specification. *)

Module Examples.

Import LineFields.

Definition USD : Z := 1.
Definition EUR : Z := 2.

(** A conversion service that leaves an amount in its own currency
    unchanged ("with USD as reference currency"). *)
Definition example_compute (from_currency amount to_currency : Z) : Z :=
  if (from_currency =? to_currency)%Z then amount else (2 * amount)%Z.

(** Account A. *)
Definition account_A : Z := 7.

Definition L1 : line :=
  {| id := 1; name := "L1"; date := "2018-03-01"; amount := -50;
     account_id := account_A; user_id := PInt 1; tag_ids := [];
     company_id := 1; currency_id := USD |}.

Definition L2 : line :=
  {| id := 2; name := "L2"; date := "2018-03-02"; amount := 30;
     account_id := account_A; user_id := PInt 1; tag_ids := [];
     company_id := 1; currency_id := USD |}.

(** A EUR line of another account, tagged 3, and an earlier USD line
    of account A, tagged 4. *)
Definition L4 : line :=
  {| id := 4; name := "L4"; date := "2018-03-04"; amount := -7;
     account_id := 8; user_id := PInt 1; tag_ids := [3%Z];
     company_id := 1; currency_id := EUR |}.

Definition L5 : line :=
  {| id := 5; name := "L5"; date := "2017-12-31"; amount := 100;
     account_id := account_A; user_id := PInt 1; tag_ids := [4%Z];
     company_id := 1; currency_id := USD |}.

(** A context whose hints are all absent or count as false, with a key
    that the method does not read. *)
Definition idle_context : gmap string pyval :=
  <["from_date" := PStr ""]>
  (<["tag_ids" := PList []]>
  (<["company_ids" := PBool false]>
  (<["lang" := PStr "en_US"]> ∅))).

(** A context whose tags are not a list. *)
Definition broken_context : gmap string pyval :=
  <["tag_ids" := PInt 5]> ∅.

(** A context with a start date, two tags and a company. *)
Definition example_context : gmap string pyval :=
  <["from_date" := PStr "2018-01-01"]>
  (<["tag_ids" := PList [3; 4]%Z]>
  (<["company_ids" := PList [1]%Z]> ∅)).

(** A root group and a child of it, not yet named. *)
Definition example_groups : gmap Z AccountAnalyticGroup.group :=
  <[1%Z := {| AccountAnalyticGroup.name := "Assets";
              AccountAnalyticGroup.parent_id := None;
              AccountAnalyticGroup.complete_name := "" |}]>
  (<[2%Z := {| AccountAnalyticGroup.name := "Fixed";
               AccountAnalyticGroup.parent_id := Some 1%Z;
               AccountAnalyticGroup.complete_name := "" |}]> ∅).

(** The partner "Acme", a company, and a contact of it. *)
Definition acme : ResPartner.partner :=
  {| ResPartner.id := 5; ResPartner.name := "Acme";
     ResPartner.commercial_partner_id := 5 |}.

Definition acme_contact : ResPartner.partner :=
  {| ResPartner.id := 6; ResPartner.name := "John";
     ResPartner.commercial_partner_id := 5 |}.

Definition sales_x1 : AccountAnalyticAccount.account :=
  {| AccountAnalyticAccount.id := 11;
     AccountAnalyticAccount.name := "Sales";
     AccountAnalyticAccount.code := Some "X1";
     AccountAnalyticAccount.company_id := Some 1%Z;
     AccountAnalyticAccount.partner_id := Some 5%Z |}.

Definition sales_plain : AccountAnalyticAccount.account :=
  {| AccountAnalyticAccount.id := 12;
     AccountAnalyticAccount.name := "Sales";
     AccountAnalyticAccount.code := None;
     AccountAnalyticAccount.company_id := None;
     AccountAnalyticAccount.partner_id := None |}.

Definition sales_contact : AccountAnalyticAccount.account :=
  {| AccountAnalyticAccount.id := 13;
     AccountAnalyticAccount.name := "Sales";
     AccountAnalyticAccount.code := Some "";
     AccountAnalyticAccount.company_id := None;
     AccountAnalyticAccount.partner_id := Some 6%Z |}.

(** An environment with the accounts above: user 2 of company 1. *)
Definition example_env : AccountAnalyticLine.environment :=
  {| AccountAnalyticLine.context := ∅;
     AccountAnalyticLine.uid := 2;
     AccountAnalyticLine.user_company := 1;
     AccountAnalyticLine.today := "2018-03-05";
     AccountAnalyticLine.company_currency := fun _ => USD;
     AccountAnalyticLine.accounts := [sales_x1; sales_plain] |}.

(** The same with a user given in the context. *)
Definition example_env_user : AccountAnalyticLine.environment :=
  {| AccountAnalyticLine.context := <["user_id" := PInt 9]> ∅;
     AccountAnalyticLine.uid := 2;
     AccountAnalyticLine.user_company := 1;
     AccountAnalyticLine.today := "2018-03-05";
     AccountAnalyticLine.company_currency := fun _ => USD;
     AccountAnalyticLine.accounts := [sales_x1; sales_plain] |}.

(** The values of a new line on an account, with or without a company. *)
Definition example_vals (account : Z) (company : option Z)
    : AccountAnalyticLine.line_vals :=
  {| AccountAnalyticLine.v_name := Some "Invoice";
     AccountAnalyticLine.v_date := None;
     AccountAnalyticLine.v_amount := Some 30%Z;
     AccountAnalyticLine.v_account_id := Some account;
     AccountAnalyticLine.v_user_id := None;
     AccountAnalyticLine.v_tag_ids := None;
     AccountAnalyticLine.v_company_id := company |}.

(** A line of company 1 on the account [sales_x1] of company 1. *)
Definition L3 : line :=
  {| id := 3; name := "L3"; date := "2018-03-03"; amount := 10;
     account_id := 11; user_id := PInt 2; tag_ids := [];
     company_id := 1; currency_id := USD |}.


(** A data store that compares for equality under ['=']; the other
    operators are not used by the examples and compare likewise. *)
Definition example_sql_match (operator value searched : string) : bool :=
  String.eqb value searched.

Definition no_super_name_search (name : string) (args : option domain)
    (operator : string) (limit : option nat) : option (list (Z * string)) :=
  None.

(** A second partner named "Acme" and an account linked to it. *)
Definition acme_twin : ResPartner.partner :=
  {| ResPartner.id := 7; ResPartner.name := "Acme";
     ResPartner.commercial_partner_id := 7 |}.

Definition shop : AccountAnalyticAccount.account :=
  {| AccountAnalyticAccount.id := 14;
     AccountAnalyticAccount.name := "Shop";
     AccountAnalyticAccount.code := None;
     AccountAnalyticAccount.company_id := None;
     AccountAnalyticAccount.partner_id := Some 7%Z |}.

(** The example groups with a grandchild, and all of them named. *)
Definition named_groups : gmap Z AccountAnalyticGroup.group :=
  <[1%Z := {| AccountAnalyticGroup.name := "Assets";
              AccountAnalyticGroup.parent_id := None;
              AccountAnalyticGroup.complete_name := "Assets" |}]>
  (<[2%Z := {| AccountAnalyticGroup.name := "Fixed";
               AccountAnalyticGroup.parent_id := Some 1%Z;
               AccountAnalyticGroup.complete_name := "Assets / Fixed" |}]>
  (<[3%Z := {| AccountAnalyticGroup.name := "Cars";
               AccountAnalyticGroup.parent_id := Some 2%Z;
               AccountAnalyticGroup.complete_name := "Assets / Fixed / Cars" |}]> ∅)).

Definition unnamed_groups : gmap Z AccountAnalyticGroup.group :=
  <[3%Z := {| AccountAnalyticGroup.name := "Cars";
              AccountAnalyticGroup.parent_id := Some 2%Z;
              AccountAnalyticGroup.complete_name := "" |}]> example_groups.

(** [unnamed_groups] after the groups 1 and 2 were named. *)
Definition half_named_groups : gmap Z AccountAnalyticGroup.group :=
  <[2%Z := {| AccountAnalyticGroup.name := "Fixed";
              AccountAnalyticGroup.parent_id := Some 1%Z;
              AccountAnalyticGroup.complete_name := "Assets / Fixed" |}]>
  (<[1%Z := {| AccountAnalyticGroup.name := "Assets";
               AccountAnalyticGroup.parent_id := None;
               AccountAnalyticGroup.complete_name := "Assets" |}]> unnamed_groups).

(** [example_groups] after the child was named before its parent. *)
Definition child_first_groups : gmap Z AccountAnalyticGroup.group :=
  <[1%Z := {| AccountAnalyticGroup.name := "Assets";
              AccountAnalyticGroup.parent_id := None;
              AccountAnalyticGroup.complete_name := "Assets" |}]>
  (<[2%Z := {| AccountAnalyticGroup.name := "Fixed";
               AccountAnalyticGroup.parent_id := Some 1%Z;
               AccountAnalyticGroup.complete_name := " / Fixed" |}]> example_groups).

End Examples.

(** * Theorems *)

(** ** Prefix domains and the trees they flatten *)

Section DomainSemantics.

Import DomainTrees.

Context {R : Type}.
Variable field_leaf : leaf -> R -> option bool.

Lemma flatten_cons (t : tree) : exists tok rest, flatten t = tok :: rest.
Proof. destruct t; simpl; eauto. Qed.

(** Scanning one tree consumes one expected operand, after an implicit
    ['&'] when none was expected. *)
Lemma normalize_scan_flatten (t : tree) : forall rest extra expected,
  (0 <= expected)%Z ->
  normalize_scan (flatten t ++ rest) extra expected =
  normalize_scan rest (if (expected =? 0)%Z then S extra else extra)
                      ((if (expected =? 0)%Z then 1 else expected) - 1)%Z.
Proof.
  induction t as [l|t1 IH1 t2 IH2|t1 IH1 t2 IH2]; intros rest extra expected Hpos.
  - reflexivity.
  - cbn [flatten app normalize_scan]. rewrite <- app_assoc.
    change (op_arity AND_OPERATOR) with 2%Z.
    destruct (Z.eqb_spec expected 0) as [->|Hne].
    + rewrite IH1 by lia. change (1 + 2 - 1 =? 0)%Z with false. cbv iota.
      rewrite IH2 by lia. reflexivity.
    + rewrite IH1 by lia.
      destruct (Z.eqb_spec (expected + 2 - 1) 0); [lia|].
      rewrite IH2 by lia.
      destruct (Z.eqb_spec (expected + 2 - 1 - 1) 0); [lia|].
      f_equal. lia.
  - cbn [flatten app normalize_scan]. rewrite <- app_assoc.
    change (op_arity OR_OPERATOR) with 2%Z.
    destruct (Z.eqb_spec expected 0) as [->|Hne].
    + rewrite IH1 by lia. change (1 + 2 - 1 =? 0)%Z with false. cbv iota.
      rewrite IH2 by lia. reflexivity.
    + rewrite IH1 by lia.
      destruct (Z.eqb_spec (expected + 2 - 1) 0); [lia|].
      rewrite IH2 by lia.
      destruct (Z.eqb_spec (expected + 2 - 1 - 1) 0); [lia|].
      f_equal. lia.
Qed.

Lemma normalize_scan_flatten_all (ts : list tree) : forall extra,
  normalize_scan (flatten_all ts) extra 0 = ((extra + length ts)%nat, 0%Z).
Proof.
  induction ts as [|t ts IH]; intros extra.
  - simpl. f_equal. lia.
  - unfold flatten_all. cbn [map concat]. fold (flatten_all ts).
    rewrite normalize_scan_flatten by lia. simpl. rewrite IH. f_equal. lia.
Qed.

(** A sequence of trees is normalized by one ['&'] per tree after the
    first. *)
Lemma normalize_flatten_all (t : tree) (ts : list tree) :
  normalize_domain (flatten_all (t :: ts)) =
  Some (replicate (length ts) (TOp AND_OPERATOR) ++ flatten_all (t :: ts)).
Proof.
  unfold normalize_domain.
  assert (normalize_scan (flatten_all (t :: ts)) 0 1 = (length ts, 0%Z)) as Hscan.
  { unfold flatten_all. cbn [map concat]. fold (flatten_all ts).
    rewrite normalize_scan_flatten by lia. simpl.
    apply normalize_scan_flatten_all. }
  destruct (flatten_all (t :: ts)) as [|tok rest] eqn:Hflat.
  - unfold flatten_all in Hflat. cbn [map concat] in Hflat.
    destruct (flatten_cons t) as (tok & rest & Ht). rewrite Ht in Hflat. done.
  - rewrite Hscan. reflexivity.
Qed.

Lemma and_flatten_all (t1 t2 : tree) (ts : list tree) :
  TOp AND_OPERATOR :: flatten_all (t1 :: t2 :: ts) = flatten_all (And t1 t2 :: ts).
Proof. unfold flatten_all. simpl. by rewrite <- app_assoc. Qed.

(** Evaluating the flattening of a tree pushes its value. *)
Lemma eval_tokens_flatten (r : R) (t : tree) : forall v rest st,
  denote field_leaf r t = Some v ->
  eval_tokens field_leaf r (flatten t ++ rest) st =
  (st' ← eval_tokens field_leaf r rest st; Some (v :: st')).
Proof.
  induction t as [l|t1 IH1 t2 IH2|t1 IH1 t2 IH2]; intros v rest st Hv.
  - simpl in *. destruct (eval_tokens field_leaf r rest st); simpl; [|done].
    by rewrite Hv.
  - simpl in Hv.
    destruct (denote field_leaf r t1) as [v1|] eqn:H1; [|done].
    destruct (denote field_leaf r t2) as [v2|] eqn:H2; [|done].
    simpl in Hv. injection Hv as <-.
    cbn [flatten app eval_tokens]. rewrite <- app_assoc.
    rewrite (IH1 v1), (IH2 v2) by done.
    destruct (eval_tokens field_leaf r rest st); done.
  - simpl in Hv.
    destruct (denote field_leaf r t1) as [v1|] eqn:H1; [|done].
    destruct (denote field_leaf r t2) as [v2|] eqn:H2; [|done].
    simpl in Hv. injection Hv as <-.
    cbn [flatten app eval_tokens]. rewrite <- app_assoc.
    rewrite (IH1 v1), (IH2 v2) by done.
    destruct (eval_tokens field_leaf r rest st); done.
Qed.

Lemma eval_tokens_flatten_all (r : R) (ts : list tree) (vs : list bool) :
  Forall2 (fun t v => denote field_leaf r t = Some v) ts vs ->
  eval_tokens field_leaf r (flatten_all ts) [] = Some vs.
Proof.
  induction 1 as [|t v ts vs Hv _ IH]; [done|].
  unfold flatten_all. cbn [map concat]. fold (flatten_all ts).
  rewrite (eval_tokens_flatten r t v) by done. by rewrite IH.
Qed.

(** [n] conjunctions in front fold the [n + 1] values on the stack. *)
Lemma eval_tokens_ands (r : R) (n : nat) : forall toks vs,
  length vs = S n ->
  eval_tokens field_leaf r toks [] = Some vs ->
  eval_tokens field_leaf r (replicate n (TOp AND_OPERATOR) ++ toks) [] =
  Some [forallb id vs].
Proof.
  induction n as [|n IH]; intros toks vs Hlen Hev.
  - destruct vs as [|v [|]]; try done. simpl. rewrite Hev.
    by rewrite andb_true_r.
  - destruct vs as [|v1 [|v2 vs]]; try done.
    rewrite replicate_S_end, <- app_assoc. simpl.
    rewrite (IH (TOp AND_OPERATOR :: toks) ((v1 && v2) :: vs)).
    + simpl. by rewrite andb_assoc.
    + simpl in *. lia.
    + simpl. rewrite Hev. reflexivity.
Qed.

(** A non-empty sequence of trees holds when each of them does. *)
Lemma holds_flatten_all (r : R) (t : tree) (ts : list tree) (vs : list bool) :
  Forall2 (fun t v => denote field_leaf r t = Some v) (t :: ts) vs ->
  holds field_leaf (flatten_all (t :: ts)) r = Some (forallb id vs).
Proof.
  intros Hvs. unfold holds. rewrite normalize_flatten_all. simpl.
  rewrite (eval_tokens_ands r (length ts) _ vs).
  - done.
  - apply Forall2_length in Hvs. simpl in Hvs. lia.
  - by apply eval_tokens_flatten_all.
Qed.

(** The same with an explicit ['&'] in front of at least two trees. *)
Lemma holds_and_flatten_all (r : R) (ts : list tree) (vs : list bool) :
  2 <= length ts ->
  Forall2 (fun t v => denote field_leaf r t = Some v) ts vs ->
  holds field_leaf (TOp AND_OPERATOR :: flatten_all ts) r = Some (forallb id vs).
Proof.
  intros Hlen Hvs. destruct ts as [|t1 [|t2 ts]]; simpl in Hlen; try lia.
  rewrite and_flatten_all.
  inversion Hvs as [|? v1 ? vs1 H1 Hvs1]; subst.
  inversion Hvs1 as [|? v2 ? vs2 H2 Hvs2]; subst.
  rewrite (holds_flatten_all r _ _ ((v1 && v2) :: vs2)).
  - simpl. by rewrite andb_assoc.
  - constructor; [|done]. simpl. by rewrite H1, H2.
Qed.

Lemma flatten_all_app (ts1 ts2 : list tree) :
  flatten_all (ts1 ++ ts2) = flatten_all ts1 ++ flatten_all ts2.
Proof. unfold flatten_all. by rewrite map_app, concat_app. Qed.

Lemma flatten_all_terms (ls : list leaf) :
  flatten_all (map Term ls) = map TLeaf ls.
Proof. induction ls as [|l ls IH]; [done|]. unfold flatten_all in *. simpl. by rewrite IH. Qed.

(** The flattening and the value of a left-nested disjunction. *)
Lemma flatten_any_of (ls : list leaf) : forall t,
  flatten (any_of t ls) =
  replicate (length ls) (TOp OR_OPERATOR) ++ flatten t ++ map TLeaf ls.
Proof.
  induction ls as [|l ls IH]; intros t.
  - simpl. by rewrite app_nil_r.
  - cbn [any_of]. rewrite IH. cbn [flatten length].
    rewrite replicate_S_end, <- !app_assoc. simpl. by rewrite <- app_assoc.
Qed.

Lemma denote_any_of (r : R) (ls : list leaf) (vs : list bool) :
  Forall2 (fun l v => leaf_holds field_leaf l r = Some v) ls vs ->
  forall t v, denote field_leaf r t = Some v ->
  denote field_leaf r (any_of t ls) = Some (v || existsb id vs).
Proof.
  induction 1 as [|l w ls vs Hw _ IH]; intros t v Hv.
  - simpl. by rewrite orb_false_r.
  - cbn [any_of]. rewrite (IH _ (v || w)).
    + simpl. by rewrite orb_assoc.
    + simpl. by rewrite Hv, Hw.
Qed.

End DomainSemantics.

(** ** The line filter of the balance aggregator *)

Section LineFilter.

Import DomainTrees AccountAnalyticAccount LineFields FilterSpec.

(** What the two library combinators do on the domains of the method. *)
Lemma combine_scan_tag_domains (tags : list Z) : forall acc count,
  combine_scan FALSE_DOMAIN TRUE_DOMAIN (tag_domains tags) acc count =
  inr (acc ++ map TLeaf (map tag_leaf tags), count + length tags).
Proof.
  induction tags as [|tag tags IH]; intros acc count.
  - simpl. rewrite app_nil_r. do 2 f_equal. lia.
  - cbn [tag_domains map combine_scan].
    rewrite decide_False by discriminate. rewrite decide_False by discriminate.
    fold (tag_domains tags). rewrite IH. rewrite <- app_assoc.
    do 2 f_equal. simpl. lia.
Qed.

Lemma OR_tag_domains (tag : Z) (tags : list Z) :
  OR (tag_domains (tag :: tags)) =
  flatten (any_of (Term (tag_leaf tag)) (map tag_leaf tags)).
Proof.
  unfold OR, combine. rewrite combine_scan_tag_domains.
  rewrite flatten_any_of, length_map. simpl. by rewrite Nat.sub_0_r.
Qed.

Lemma AND_pair (d1 d2 : domain) :
  starts_properly d1 -> starts_properly d2 ->
  AND [d1; d2] = TOp AND_OPERATOR :: d1 ++ d2.
Proof.
  destruct d1 as [|tok1 d1], d2 as [|tok2 d2]; try done.
  intros [Ht1 Hf1] [Ht2 Hf2]. unfold AND, combine. cbn [combine_scan].
  rewrite !decide_False; [done|..]; unfold TRUE_DOMAIN, FALSE_DOMAIN; congruence.
Qed.

Lemma starts_properly_any_of (tag : Z) (ls : list leaf) :
  starts_properly (flatten (any_of (Term (tag_leaf tag)) ls)).
Proof.
  rewrite flatten_any_of. destruct ls; simpl; split; discriminate.
Qed.

(** An optional condition is appended exactly when its hint is supplied. *)
Lemma append_hint (context : gmap string pyval) (key field op : string)
    (dflt : pyval) (d : domain) :
  truthy dflt = false ->
  (if truthy (dict_get context key dflt)
   then d ++ [TLeaf (PStr field, op, dict_get context key PNone)]
   else d) = d ++ map TLeaf (hint_leaves context key field op).
Proof.
  intros Hdflt. unfold dict_get, hint_leaves, supplied.
  destruct (context !! key) as [v|]; simpl.
  - destruct (truthy v); simpl; by rewrite ?app_nil_r.
  - by rewrite Hdflt, app_nil_r.
Qed.

Lemma truthy_tag_ids (context : gmap string pyval) :
  from_option is_ids true (supplied context "tag_ids") = true ->
  (truthy (dict_get context "tag_ids" PNone) = false ∧ tag_trees context = []) ∨
  (exists tag tags,
     truthy (dict_get context "tag_ids" PNone) = true ∧
     dict_get context "tag_ids" PNone = PList (tag :: tags) ∧
     tag_trees context = [any_of (Term (tag_leaf tag)) (map tag_leaf tags)]).
Proof.
  unfold dict_get, tag_trees, supplied.
  destruct (context !! "tag_ids") as [v|]; simpl; [|by left].
  destruct (truthy v) eqn:Hv; simpl; [|by left].
  destruct v as [| | | |[|tag tags]]; try done. right. by exists tag, tags.
Qed.

(** The filter that the method builds is the flattening of the trees of
    the conditions that are present, behind one ['&'] when tags are
    given. *)
Lemma build_domain_trees (context : gmap string pyval) (ids : list Z) :
  well_typed context = true ->
  build_domain context ids =
  Some ((match tag_trees context with [] => [] | _ => [TOp AND_OPERATOR] end)
        ++ flatten_all (filter_trees context ids)).
Proof.
  unfold well_typed. rewrite !andb_true_iff. intros [[[_ _] Htags] _].
  unfold build_domain, filter_trees.
  rewrite !append_hint by done.
  change (flatten_all (?t :: ?ts)) with (flatten t ++ flatten_all ts).
  rewrite !flatten_all_app, !flatten_all_terms.
  destruct (truthy_tag_ids context Htags) as [[-> ->]|(tag & tags & -> & -> & ->)].
  - cbn [mbind option_bind]. rewrite append_hint by done.
    simpl. by rewrite <- !app_assoc.
  - cbn [iter mbind option_bind]. rewrite append_hint by done.
    rewrite OR_tag_domains, AND_pair.
    + unfold flatten_all. simpl. rewrite app_nil_r. by rewrite <- !app_assoc.
    + simpl. split; discriminate.
    + apply starts_properly_any_of.
Qed.

(** The value of each condition on a line. *)
Lemma existsb_mem_singleton (tag : Z) (l : list Z) :
  existsb (fun t => mem t [tag]) l = mem tag l.
Proof.
  unfold mem. induction l as [|x l IH]; [done|].
  simpl. rewrite IH. destruct (decide (x = tag)) as [->|Hne].
  - rewrite (bool_decide_eq_true_2 (tag ∈ [tag])) by left.
    by rewrite (bool_decide_eq_true_2 (tag ∈ tag :: l)) by left.
  - rewrite (bool_decide_eq_false_2 (x ∈ [tag])).
    + simpl. apply bool_decide_ext. rewrite elem_of_cons.
      split; [by right|]. intros [?|?]; [congruence|done].
    + by rewrite list_elem_of_singleton.
Qed.

Lemma existsb_id_map {A} (f : A -> bool) (l : list A) :
  existsb Datatypes.id (map f l) = existsb f l.
Proof. induction l as [|x l IH]; [done|]. simpl. by rewrite IH. Qed.

Lemma denote_from_date (context : gmap string pyval) (r : line) :
  from_option is_date true (supplied context "from_date") = true ->
  exists vs,
    Forall2 (fun t v => denote line_leaf r t = Some v)
            (map Term (hint_leaves context "from_date" "date" ">=")) vs ∧
    forallb Datatypes.id vs = match supplied context "from_date" with
                    | Some (PStr d) => String.leb d (date r)
                    | _ => true
                    end.
Proof.
  unfold hint_leaves. destruct (supplied context "from_date") as [v|]; simpl.
  - destruct v as [| | |d|]; try done. intros _.
    exists [String.leb d (date r)]. split; [by repeat constructor|].
    simpl. by rewrite andb_true_r.
  - intros _. exists []. by split.
Qed.

Lemma denote_to_date (context : gmap string pyval) (r : line) :
  from_option is_date true (supplied context "to_date") = true ->
  exists vs,
    Forall2 (fun t v => denote line_leaf r t = Some v)
            (map Term (hint_leaves context "to_date" "date" "<=")) vs ∧
    forallb Datatypes.id vs = match supplied context "to_date" with
                    | Some (PStr d) => String.leb (date r) d
                    | _ => true
                    end.
Proof.
  unfold hint_leaves. destruct (supplied context "to_date") as [v|]; simpl.
  - destruct v as [| | |d|]; try done. intros _.
    exists [String.leb (date r) d]. split; [by repeat constructor|].
    simpl. by rewrite andb_true_r.
  - intros _. exists []. by split.
Qed.

Lemma denote_company_ids (context : gmap string pyval) (r : line) :
  from_option is_ids true (supplied context "company_ids") = true ->
  exists vs,
    Forall2 (fun t v => denote line_leaf r t = Some v)
            (map Term (hint_leaves context "company_ids" "company_id" "in")) vs ∧
    forallb Datatypes.id vs = match supplied context "company_ids" with
                    | Some (PList companies) => mem (company_id r) companies
                    | _ => true
                    end.
Proof.
  unfold hint_leaves. destruct (supplied context "company_ids") as [v|]; simpl.
  - destruct v as [| | | |companies]; try done. intros _.
    exists [mem (company_id r) companies]. split; [by repeat constructor|].
    simpl. by rewrite andb_true_r.
  - intros _. exists []. by split.
Qed.

Lemma denote_tag_leaves (r : line) (tags : list Z) :
  Forall2 (fun l v => leaf_holds line_leaf l r = Some v)
          (map tag_leaf tags) (map (fun tag => mem tag (tag_ids r)) tags).
Proof.
  induction tags as [|tag tags IH]; simpl; constructor; [|done].
  unfold leaf_holds, tag_leaf. simpl. by rewrite existsb_mem_singleton.
Qed.

Lemma denote_tag_trees (context : gmap string pyval) (r : line) :
  exists vs,
    Forall2 (fun t v => denote line_leaf r t = Some v) (tag_trees context) vs ∧
    forallb Datatypes.id vs = match supplied context "tag_ids" with
                    | Some (PList tags) => existsb (fun tag => mem tag (tag_ids r)) tags
                    | _ => true
                    end.
Proof.
  unfold tag_trees, supplied.
  destruct (context !! "tag_ids") as [v|]; [|by exists []].
  destruct (truthy v) eqn:Hv; [|by exists []].
  destruct v as [| | | |[|tag tags]]; try by exists [].
  exists [existsb (fun tag => mem tag (tag_ids r)) (tag :: tags)].
  split; [|simpl; by rewrite andb_true_r].
  constructor; [|done].
  rewrite (denote_any_of line_leaf r _ _ (denote_tag_leaves r tags) _
             (mem tag (tag_ids r))).
  - simpl. by rewrite existsb_id_map.
  - unfold tag_leaf. simpl. unfold leaf_holds. simpl.
    by rewrite existsb_mem_singleton.
Qed.

(** The rows that [select] keeps when the domain has a meaning on every
    record. *)
Lemma select_filter {R} (field_leaf : leaf -> R -> option bool) (d : domain)
    (f : R -> bool) (table : list R) :
  (forall r, holds field_leaf d r = Some (f r)) ->
  select field_leaf d table = Some (filter (fun r => f r = true) table).
Proof.
  intros Hf. induction table as [|r table IH]; [done|].
  simpl. rewrite Hf, IH. simpl. rewrite filter_cons.
  destruct (f r); by case_decide.
Qed.

End LineFilter.

Section FilterClaim.

Import DomainTrees AccountAnalyticAccount LineFields FilterSpec Examples.

(** C7: when the filter hints that are supplied in the context are
    dates and lists of ids, the method builds a filter, and a line
    satisfies this filter exactly when its account is in the given set,
    and its date is on or after [from_date] if supplied, and on or
    before [to_date] if supplied, and one of the given tags is among its
    tags if tags are supplied, and its company is in the given set if
    supplied; the search with this filter returns the lines of the
    table that satisfy this conjunction. *)
Theorem line_filter_is_conjunction
    (context : gmap string pyval) (ids : list Z) :
  well_typed context = true ->
  exists domain,
    build_domain context ids = Some domain ∧
    (forall r : line, holds line_leaf domain r = Some (spec_filter context ids r)) ∧
    (forall lines : list line,
        search line_leaf domain None lines =
        Some (filter (fun r => spec_filter context ids r = true) lines)).
Proof.
  intros Htyped. rewrite build_domain_trees by done.
  eexists. split; [reflexivity|].
  assert (forall r : line,
    holds line_leaf
      ((match tag_trees context with [] => [] | _ => [TOp AND_OPERATOR] end)
       ++ flatten_all (filter_trees context ids)) r =
    Some (spec_filter context ids r)) as Hholds.
  { intros r. unfold well_typed in Htyped. rewrite !andb_true_iff in Htyped.
    destruct Htyped as [[[Hfrom Hto] Htags] Hcomp].
    destruct (denote_from_date context r Hfrom) as (vf & Hvf & Ef).
    destruct (denote_to_date context r Hto) as (vt & Hvt & Et).
    destruct (denote_tag_trees context r) as (vg & Hvg & Eg).
    destruct (denote_company_ids context r Hcomp) as (vc & Hvc & Ec).
    assert (Forall2 (fun t v => denote line_leaf r t = Some v)
              (filter_trees context ids)
              (mem (account_id r) ids :: vf ++ vt ++ vg ++ vc)) as Hall.
    { unfold filter_trees. constructor; [done|].
      repeat apply Forall2_app; done. }
    assert (forallb Datatypes.id (mem (account_id r) ids :: vf ++ vt ++ vg ++ vc) =
            spec_filter context ids r) as <-.
    { unfold spec_filter. simpl. rewrite !forallb_app, Ef, Et, Eg, Ec.
      by rewrite !andb_assoc. }
    unfold filter_trees in *.
    pose proof (holds_flatten_all line_leaf r _ _ _ Hall) as Hplain.
    pose proof (fun Hlen => holds_and_flatten_all line_leaf r _ _ Hlen Hall) as Hand.
    cbn [length] in Hand. rewrite !length_app in Hand.
    destruct (tag_trees context) as [|t ts].
    - exact Hplain.
    - apply Hand. simpl. lia. }
  split; [done|].
  intros lines. unfold search.
  destruct (normalize_domain _) as [n|] eqn:Hn.
  - cbn [mbind option_bind].
    by rewrite (select_filter line_leaf _ (spec_filter context ids)).
  - specialize (Hholds L1). unfold holds in Hholds. by rewrite Hn in Hholds.
Qed.

Lemma line_filter_is_conjunction_witness :
  well_typed example_context = true ∧
  exists domain,
    build_domain example_context [account_A] = Some domain ∧
    (forall r : line,
        holds line_leaf domain r = Some (spec_filter example_context [account_A] r)) ∧
    (forall lines : list line,
        search line_leaf domain None lines =
        Some (filter (fun r => spec_filter example_context [account_A] r = true) lines)).
Proof.
  split; [reflexivity|].
  apply (line_filter_is_conjunction example_context [account_A]). reflexivity.
Defined.

(** The token list that the method builds at the example context. *)
Example build_domain_example :
  build_domain example_context [account_A] =
  Some [TOp "&";
        TLeaf (PStr "account_id", "in", PList [account_A]);
        TLeaf (PStr "date", ">=", PStr "2018-01-01");
        TOp "|";
        TLeaf (PStr "tag_ids", "in", PList [3%Z]);
        TLeaf (PStr "tag_ids", "in", PList [4%Z]);
        TLeaf (PStr "company_id", "in", PList [1%Z])].
Proof. vm_compute. reflexivity. Qed.

End FilterClaim.

(** ** The balance aggregator *)

Section BalanceAggregator.

Import LineFields AccountAnalyticAccount Spec.

Variable compute : Z -> Z -> Z -> Z.
Variable user_currency : Z.

Lemma debits_cons r rows a :
  negative_total compute user_currency (r :: rows) a =
  (if decide (account_id r = a) then
     if (compute (currency_id r) (amount r) user_currency <? 0)%Z then compute (currency_id r) (amount r) user_currency + negative_total compute user_currency rows a else negative_total compute user_currency rows a
   else negative_total compute user_currency rows a)%Z.
Proof.
  unfold negative_total, converted_amounts. rewrite filter_cons.
  destruct (decide (account_id r = a)) as [Ha|Ha]; [|done].
  rewrite fmap_cons, filter_cons.
  destruct (Z.ltb_spec (compute (currency_id r) (amount r) user_currency) 0); case_decide; try lia; done.
Qed.

Lemma credits_cons r rows a :
  nonnegative_total compute user_currency (r :: rows) a =
  (if decide (account_id r = a) then
     if (compute (currency_id r) (amount r) user_currency <? 0)%Z then nonnegative_total compute user_currency rows a else compute (currency_id r) (amount r) user_currency + nonnegative_total compute user_currency rows a
   else nonnegative_total compute user_currency rows a)%Z.
Proof.
  unfold nonnegative_total, converted_amounts. rewrite filter_cons.
  destruct (decide (account_id r = a)) as [Ha|Ha]; [|done].
  rewrite fmap_cons, filter_cons.
  destruct (Z.ltb_spec (compute (currency_id r) (amount r) user_currency) 0); case_decide; try lia; done.
Qed.

(** Without a row of the account both sums are empty. *)
Lemma totals_no_row rows a :
  (forall r, r ∈ rows -> account_id r ≠ a) ->
  negative_total compute user_currency rows a = 0%Z ∧ nonnegative_total compute user_currency rows a = 0%Z.
Proof.
  intros Hno. unfold negative_total, nonnegative_total, converted_amounts.
  assert (filter (fun r => account_id r = a) rows = []) as ->; [|done].
  induction rows as [|r rows IH]; [done|].
  rewrite filter_cons. case_decide as Ha.
  - exfalso. eapply Hno; [left|done].
  - apply IH. intros r' Hr'. apply Hno. by right.
Qed.

Lemma debits_nonpos rows a : (negative_total compute user_currency rows a <= 0)%Z.
Proof.
  induction rows as [|r rows IH]; [done|].
  rewrite debits_cons. case_decide; [|done].
  destruct (Z.ltb_spec (compute (currency_id r) (amount r) user_currency) 0); lia.
Qed.

Lemma credits_nonneg rows a : (0 <= nonnegative_total compute user_currency rows a)%Z.
Proof.
  induction rows as [|r rows IH]; [done|].
  rewrite credits_cons. case_decide; [|done].
  destruct (Z.ltb_spec (compute (currency_id r) (amount r) user_currency) 0); lia.
Qed.

(** The loop over the rows adds, under each key that is present, the
    negative amounts of that account to [data_debit] and the others to
    [data_credit]; it cannot fail when the keys of all rows are there. *)
Lemma accumulate_spec rows : forall (dd dc : gmap Z Z),
  (forall r, r ∈ rows -> is_Some (dd !! account_id r) ∧ is_Some (dc !! account_id r)) ->
  exists dd' dc',
    accumulate compute user_currency rows dd dc = Some (dd', dc') ∧
    forall a,
      dd' !! a = (fun v => (v + negative_total compute user_currency rows a)%Z) <$> dd !! a ∧
      dc' !! a = (fun v => (v + nonnegative_total compute user_currency rows a)%Z) <$> dc !! a.
Proof.
  induction rows as [|r rows IH]; intros dd dc Hkeys.
  - exists dd, dc. split; [done|]. intros a.
    unfold negative_total, nonnegative_total; simpl.
    split; destruct (_ !! a); simpl; f_equal; lia.
  - destruct (Hkeys r) as [[vd Hvd] [vc Hvc]]; [left|].
    simpl. unfold dict_add.
    destruct (Z.ltb_spec (compute (currency_id r) (amount r) user_currency) 0) as [Hneg|Hpos].
    + rewrite Hvd; simpl.
      destruct (IH (<[account_id r := (vd + compute (currency_id r) (amount r) user_currency)%Z]> dd) dc) as (dd' & dc' & Hrun & Hres).
      { intros r' Hr'. destruct (Hkeys r') as [Hd Hc]; [by right|]. split; [|done].
        rewrite lookup_insert_is_Some. destruct (decide (account_id r = account_id r')); auto. }
      exists dd', dc'. split; [done|]. intros a. destruct (Hres a) as [Hd Hc].
      rewrite Hd, Hc, debits_cons, credits_cons.
      assert ((compute (currency_id r) (amount r) user_currency <? 0)%Z = true) as -> by lia.
      destruct (decide (account_id r = a)) as [<-|Hne].
      * rewrite lookup_insert_eq, Hvd. simpl. split; [f_equal; lia|done].
      * rewrite lookup_insert_ne by done. done.
    + rewrite Hvc; simpl.
      destruct (IH dd (<[account_id r := (vc + compute (currency_id r) (amount r) user_currency)%Z]> dc)) as (dd' & dc' & Hrun & Hres).
      { intros r' Hr'. destruct (Hkeys r') as [Hd Hc]; [by right|]. split; [done|].
        rewrite lookup_insert_is_Some. destruct (decide (account_id r = account_id r')); auto. }
      exists dd', dc'. split; [done|]. intros a. destruct (Hres a) as [Hd Hc].
      rewrite Hd, Hc, debits_cons, credits_cons.
      assert ((compute (currency_id r) (amount r) user_currency <? 0)%Z = false) as -> by lia.
      destruct (decide (account_id r = a)) as [<-|Hne].
      * rewrite lookup_insert_eq, Hvc. simpl. split; [done|f_equal; lia].
      * rewrite lookup_insert_ne by done. done.
Qed.

(** The initial dictionaries: 0 under the account of every row. *)
Lemma lookup_initial (rows : list line) (a : Z) :
  gset_to_gmap 0%Z (list_to_set (map account_id rows) : gset Z) !! a =
  if decide (a ∈ map account_id rows) then Some 0%Z else None.
Proof.
  case_decide as Ha.
  - apply lookup_gset_to_gmap_Some. by rewrite elem_of_list_to_set.
  - apply lookup_gset_to_gmap_None. by rewrite elem_of_list_to_set.
Qed.

(** The part of the method after [search_read] always returns, and
    returns the closed form of the specification on each account. *)
Lemma aggregate_spec rows self :
  aggregate compute user_currency rows self =
  Some (map (fun a => (a, spec_balances compute user_currency rows a)) self).
Proof.
  unfold aggregate.
  destruct (accumulate_spec rows
              (gset_to_gmap 0%Z (list_to_set (map account_id rows)))
              (gset_to_gmap 0%Z (list_to_set (map account_id rows))))
    as (dd & dc & -> & Hres).
  { intros r Hr. rewrite lookup_initial.
    rewrite decide_True; [by split|]. by apply list_elem_of_fmap_2. }
  simpl. f_equal. apply map_ext. intros a.
  destruct (Hres a) as [Hd Hc]. rewrite lookup_initial in Hd, Hc.
  unfold assign, spec_balances, spec_debit, spec_credit.
  case_decide as Ha.
  - rewrite Hd, Hc. simpl. rewrite !Z.add_0_l. done.
  - rewrite Hd, Hc. simpl.
    destruct (totals_no_row rows a) as [-> ->]; [|done].
    intros r Hr <-. apply Ha. by apply list_elem_of_fmap_2.
Qed.

End BalanceAggregator.

Section BalanceClaims.

Import LineFields AccountAnalyticAccount Spec Examples.

(** C1: [_compute_debit_credit_balance] builds its filter, reads the
    matching lines, and then assigns on every account of [self] the
    absolute value of the sum of the negative converted amounts of the
    account's lines as debit, the sum of the non-negative ones as credit,
    and credit minus debit as balance; the only way it can fail is in
    building the filter or in the search.  On the lines L1 (-50 USD) and
    L2 (30 USD) of account A, with USD as the user's currency, it
    assigns debit 50, credit 30 and balance -20. *)
Theorem compute_debit_credit_balance_sums :
  (forall (compute : Z -> Z -> Z -> Z) (user_currency : Z) (lines : list line)
          (context : gmap string pyval) (self : list Z),
      _compute_debit_credit_balance compute user_currency lines context self =
      (domain ← build_domain context self;
       account_amounts ← search line_leaf domain None lines;
       Some (map (fun a => (a, {| debit := spec_debit compute user_currency account_amounts a;
                                  credit := spec_credit compute user_currency account_amounts a;
                                  balance := (spec_credit compute user_currency account_amounts a
                                              - spec_debit compute user_currency account_amounts a)%Z |}))
                 self)))
  ∧ _compute_debit_credit_balance example_compute USD [L1; L2] ∅ [account_A] =
    Some [(account_A, {| debit := 50; credit := 30; balance := -20 |})].
Proof.
  split.
  - intros compute user_currency lines context self.
    unfold _compute_debit_credit_balance.
    destruct (build_domain context self) as [domain|]; [|done]. simpl.
    destruct (search line_leaf domain None lines) as [rows|]; [|done]. simpl.
    apply aggregate_spec.
  - vm_compute. reflexivity.
Qed.

(** C8: an account of [self] without a row among the lines found is
    assigned debit 0, credit 0 and balance 0, and nothing else. *)
Theorem no_matching_lines_zero
    (compute : Z -> Z -> Z -> Z) (user_currency : Z)
    (account_amounts : list line) (self : list Z) (a : Z) :
  a ∈ self ->
  Forall (fun r => account_id r ≠ a) account_amounts ->
  exists res,
    aggregate compute user_currency account_amounts self = Some res ∧
    (a, {| debit := 0; credit := 0; balance := 0 |}) ∈ res ∧
    forall b, (a, b) ∈ res -> b = {| debit := 0; credit := 0; balance := 0 |}.
Proof.
  intros Ha Hno. rewrite Forall_forall in Hno.
  eexists. split; [apply aggregate_spec|].
  assert (spec_balances compute user_currency account_amounts a =
          {| debit := 0; credit := 0; balance := 0 |}) as Hzero.
  { unfold spec_balances, spec_debit, spec_credit.
    destruct (totals_no_row compute user_currency account_amounts a) as [-> ->]; done. }
  split.
  - apply list_elem_of_fmap. exists a. by rewrite Hzero.
  - intros b Hb. apply list_elem_of_fmap in Hb as (a' & [= <- ->] & _). done.
Qed.

Lemma no_matching_lines_zero_witness :
  8%Z ∈ [account_A; 8%Z] ∧
  Forall (fun r => account_id r ≠ 8%Z) [L1; L2] ∧
  exists res,
    aggregate example_compute USD [L1; L2] [account_A; 8%Z] = Some res ∧
    (8%Z, {| debit := 0; credit := 0; balance := 0 |}) ∈ res ∧
    forall b, (8%Z, b) ∈ res -> b = {| debit := 0; credit := 0; balance := 0 |}.
Proof.
  assert (8%Z ∈ [account_A; 8%Z]) as Hin by compute_done.
  assert (Forall (fun r => account_id r ≠ 8%Z) [L1; L2]) as Hno
    by (repeat constructor; discriminate).
  split; [exact Hin|]. split; [exact Hno|].
  exact (no_matching_lines_zero example_compute USD [L1; L2] [account_A; 8%Z] 8%Z Hin Hno).
Defined.

(** C9: whatever the lines found and whatever the conversion service
    returns for them, the aggregation returns, and the debit and the
    credit it assigns on every account are non-negative; so are those of
    every result of [_compute_debit_credit_balance]. *)
Theorem debit_credit_nonnegative :
  forall (compute : Z -> Z -> Z -> Z) (user_currency : Z),
    (forall (account_amounts : list line) (self : list Z),
        exists res,
          aggregate compute user_currency account_amounts self = Some res ∧
          Forall (fun ab => (0 <= debit ab.2)%Z ∧ (0 <= credit ab.2)%Z) res)
    ∧ (forall (lines : list line) (context : gmap string pyval) (self : list Z)
              (res : list (Z * balances)),
          _compute_debit_credit_balance compute user_currency lines context self
            = Some res ->
          Forall (fun ab => (0 <= debit ab.2)%Z ∧ (0 <= credit ab.2)%Z) res).
Proof.
  intros compute user_currency.
  assert (forall rows self,
    Forall (fun ab => (0 <= debit ab.2)%Z ∧ (0 <= credit ab.2)%Z)
           (map (fun a => (a, spec_balances compute user_currency rows a)) self))
    as Hnonneg.
  { intros rows self. apply Forall_fmap, Forall_forall. intros a _. simpl.
    unfold spec_debit, spec_credit. split.
    - apply Z.abs_nonneg.
    - apply credits_nonneg. }
  split.
  - intros rows self. eexists. split; [apply aggregate_spec|]. apply Hnonneg.
  - intros lines context self res. unfold _compute_debit_credit_balance.
    destruct (build_domain context self) as [domain|]; [|done]. simpl.
    destruct (search line_leaf domain None lines) as [rows|]; [|done]. simpl.
    rewrite aggregate_spec. intros [= <-]. apply Hnonneg.
Qed.

(** Two accounts and two currencies: the EUR line is converted, and
    each account gets the sums of its own lines. *)
Example compute_debit_credit_balance_two_accounts :
  _compute_debit_credit_balance example_compute USD [L1; L2; L4; L5] ∅ [account_A; 8%Z; 9%Z] =
  Some [(account_A, {| debit := 50; credit := 130; balance := 80 |});
        (8%Z, {| debit := 14; credit := 0; balance := -14 |});
        (9%Z, {| debit := 0; credit := 0; balance := 0 |})].
Proof. vm_compute. reflexivity. Qed.

(** With the example context only the lines from 2018 on that carry tag
    3 or 4 are read: none of account A. *)
Example compute_debit_credit_balance_filtered :
  _compute_debit_credit_balance example_compute USD [L1; L2; L4; L5]
    example_context [account_A; 8%Z] =
  Some [(account_A, {| debit := 0; credit := 0; balance := 0 |});
        (8%Z, {| debit := 14; credit := 0; balance := -14 |})].
Proof. vm_compute. reflexivity. Qed.

End BalanceClaims.

(** ** The complete name of a group *)

Section GroupNames.

Import AccountAnalyticGroup GroupSpec.

(** One iteration writes the complete name of its group and nothing
    else. *)
Lemma compute_complete_name_of_Some (store store' : gmap Z group) (gid : Z) :
  compute_complete_name_of store gid = Some store' ->
  exists g s,
    store !! gid = Some g ∧
    store' = <[gid := set_complete_name s g]> store ∧
    match parent_id g with
    | Some p =>
        exists parent, store !! p = Some parent ∧
          s = complete_name parent +:+ " / " +:+ name g
    | None => s = name g
    end.
Proof.
  unfold compute_complete_name_of. intros Hstep.
  destruct (store !! gid) as [g|] eqn:Hg; [|done]. simpl in Hstep.
  destruct (parent_id g) as [p|] eqn:Hp.
  - destruct (store !! p) as [parent|] eqn:Hparent; [|done].
    injection Hstep as <-. exists g, (complete_name parent +:+ " / " +:+ name g).
    rewrite Hp. eauto.
  - injection Hstep as <-. exists g, (name g). rewrite Hp. eauto.
Qed.

Lemma compute_complete_name_of_total (store : gmap Z group) (gid : Z) :
  record_exists store gid = true ->
  is_Some (compute_complete_name_of store gid).
Proof.
  unfold record_exists, compute_complete_name_of.
  destruct (store !! gid) as [g|]; [|done]. simpl.
  destruct (parent_id g) as [p|]; [|by eauto].
  intros [parent ->]%bool_decide_eq_true. simpl. eauto.
Qed.

(** An iteration changes neither which records exist nor their parents. *)
Lemma step_parent_of (store store' : gmap Z group) (gid k : Z) :
  compute_complete_name_of store gid = Some store' ->
  parent_of store' k = parent_of store k.
Proof.
  intros (g & s & Hg & -> & _)%compute_complete_name_of_Some.
  unfold parent_of. destruct (decide (gid = k)) as [->|Hne].
  - by rewrite lookup_insert_eq, Hg.
  - by rewrite lookup_insert_ne.
Qed.

Lemma step_is_Some (store store' : gmap Z group) (gid k : Z) :
  compute_complete_name_of store gid = Some store' ->
  is_Some (store' !! k) <-> is_Some (store !! k).
Proof.
  intros (g & s & Hg & -> & _)%compute_complete_name_of_Some.
  rewrite lookup_insert_is_Some. split.
  - intros [<-|[_ H]]; [by eauto|done].
  - intros H. destruct (decide (gid = k)); auto.
Qed.

Lemma step_record_exists (store store' : gmap Z group) (gid k : Z) :
  compute_complete_name_of store gid = Some store' ->
  record_exists store' k = record_exists store k.
Proof.
  intros Hstep. pose proof (step_parent_of _ _ _ k Hstep) as Hpar.
  pose proof (step_is_Some _ _ _ k Hstep) as Hk.
  unfold record_exists, parent_of in *.
  destruct (store' !! k) as [g'|], (store !! k) as [g|]; simpl in *.
  - rewrite Hpar. destruct (parent_id g) as [p|]; [|done].
    apply bool_decide_ext. by eapply step_is_Some.
  - destruct Hk as [Hk _]. by destruct Hk.
  - destruct Hk as [_ Hk]. by destruct Hk.
  - done.
Qed.

Lemma step_records_exist (store store' : gmap Z group) (gid : Z) (self : list Z) :
  compute_complete_name_of store gid = Some store' ->
  records_exist store' self = records_exist store self.
Proof.
  intros Hstep. unfold records_exist. induction self as [|k self IH]; [done|].
  simpl. by rewrite IH, (step_record_exists store store' gid).
Qed.

Lemma step_parents_first (store store' : gmap Z group) (gid : Z) (self : list Z) :
  compute_complete_name_of store gid = Some store' ->
  parents_first store' self = parents_first store self.
Proof.
  intros Hstep. induction self as [|k self IH]; [done|].
  simpl. by rewrite IH, (step_parent_of store store' gid).
Qed.

(** The loop leaves the groups outside the record set as they are. *)
Lemma compute_complete_name_frame (self : list Z) : forall store store' k,
  _compute_complete_name store self = Some store' ->
  k ∉ self ->
  store' !! k = store !! k.
Proof.
  induction self as [|gid self IH]; intros store store' k Hrun Hk.
  - by injection Hrun as <-.
  - simpl in Hrun.
    destruct (compute_complete_name_of store gid) as [store1|] eqn:Hstep; [|done].
    simpl in Hrun. rewrite not_elem_of_cons in Hk. destruct Hk as [Hne Hk].
    rewrite (IH _ _ _ Hrun Hk).
    apply compute_complete_name_of_Some in Hstep as (g & s & _ & -> & _).
    by rewrite lookup_insert_ne.
Qed.

(** The loop over a record set that lists parents first. *)
Lemma compute_complete_name_loop (self : list Z) : forall store,
  records_exist store self = true ->
  parents_first store self = true ->
  exists store',
    _compute_complete_name store self = Some store' ∧
    (forall k, parent_of store' k = parent_of store k) ∧
    forall gid, gid ∈ self -> named_after_parent store' gid.
Proof.
  induction self as [|gid self IH]; intros store Hex Hfirst.
  - exists store. split; [done|]. split; [done|]. by intros gid Hin%elem_of_nil.
  - simpl in Hex, Hfirst. apply andb_true_iff in Hex as [Hgid Hex].
    apply andb_true_iff in Hfirst as [Hpar Hfirst].
    destruct (compute_complete_name_of_total store gid Hgid) as [store1 Hstep].
    destruct (IH store1) as (store' & Hrun & Hparents & Hnamed).
    { by rewrite (step_records_exist store store1 gid). }
    { by rewrite (step_parents_first store store1 gid). }
    exists store'. simpl. rewrite Hstep. simpl. split; [done|]. split.
    { intros k. by rewrite Hparents, (step_parent_of store store1 gid). }
    intros k Hk. destruct (decide (k ∈ self)) as [Hin|Hout]; [by apply Hnamed|].
    apply elem_of_cons in Hk as [->|Hk]; [|done].
    pose proof Hstep as (g & s & Hg & -> & Hs)%compute_complete_name_of_Some.
    unfold parent_of in Hpar. rewrite Hg in Hpar. simpl in Hpar.
    exists (set_complete_name s g). split.
    { rewrite (compute_complete_name_frame _ _ _ _ Hrun Hout).
      by rewrite lookup_insert_eq. }
    simpl. destruct (parent_id g) as [p|]; [|done].
    destruct Hs as (parent & Hparent & ->).
    apply negb_true_iff, bool_decide_eq_false in Hpar.
    rewrite not_elem_of_cons in Hpar. destruct Hpar as [Hne Hp].
    exists parent. split; [|done].
    rewrite (compute_complete_name_frame _ _ _ _ Hrun Hp).
    by rewrite lookup_insert_ne.
Qed.

End GroupNames.

Section GroupClaim.

Import AccountAnalyticGroup GroupSpec Examples.




(** The names that the method computes on the example groups. *)
Example complete_name_example :
  (fun store => (complete_name <$> store !! 1%Z, complete_name <$> store !! 2%Z))
    <$> _compute_complete_name example_groups [1; 2]%Z =
  Some (Some "Assets", Some "Assets / Fixed").
Proof. vm_compute. reflexivity. Qed.

(** When a child is listed before its parent, the child's name is built
    from the complete name that the parent had in the store. *)
Example complete_name_child_first :
  (fun store => (complete_name <$> store !! 1%Z, complete_name <$> store !! 2%Z))
    <$> _compute_complete_name example_groups [2; 1]%Z =
  Some (Some "Assets", Some " / Fixed").
Proof. vm_compute. reflexivity. Qed.

End GroupClaim.

(** ** The percentage of a distribution *)

Section DistributionClaim.

Import AccountAnalyticDistribution.

Lemma enforce_percentage (r : distribution) :
  enforce _sql_constraints r =
  if Qle_bool 0 (percentage r) && Qle_bool (percentage r) 100
  then Ok ()
  else Raise (ValidationError
    "The percentage of an analytic distribution should be between 0 and 100.").
Proof.
  unfold _sql_constraints, enforce, check_holds, column. simpl.
  by destruct (Qle_bool 0 (percentage r)), (Qle_bool (percentage r) 100).
Qed.

(** C4: creating a distribution with percentage [p] (and the two
    required references) succeeds exactly when 0 ≤ p ≤ 100; it then
    stores the row, and otherwise it raises the validation error of the
    CHECK constraint of the table. *)
Theorem distribution_percentage_bounds :
  forall (table : list distribution) (a t : Z) (p : Q),
    let result := create table {| v_account_id := Some a;
                                  v_percentage := Some p;
                                  v_tag_id := Some t |} in
    (is_ok result = true <-> (0 <= p)%Q ∧ (p <= 100)%Q) ∧
    result =
      (if Qle_bool 0 p && Qle_bool p 100
       then Ok (table ++ [{| account_id := a; percentage := p; tag_id := t |}])
       else Raise (ValidationError
         "The percentage of an analytic distribution should be between 0 and 100.")).
Proof.
  intros table a t p result. subst result. unfold create. cbn [v_account_id v_tag_id v_percentage default].
  rewrite enforce_percentage. simpl.
  rewrite <- !Qle_bool_iff.
  destruct (Qle_bool 0 p), (Qle_bool p 100); simpl;
    (split; [split; [done|intros [? ?]; done]|done]).
Qed.

Example distribution_percentage_examples :
  is_ok (create [] {| v_account_id := Some 1%Z; v_percentage := Some (100 # 1);
                      v_tag_id := Some 1%Z |}) = true ∧
  is_ok (create [] {| v_account_id := Some 1%Z; v_percentage := Some (0 # 1);
                      v_tag_id := Some 1%Z |}) = true ∧
  is_ok (create [] {| v_account_id := Some 1%Z; v_percentage := Some (201 # 2);
                      v_tag_id := Some 1%Z |}) = false ∧
  is_ok (create [] {| v_account_id := Some 1%Z; v_percentage := Some (-1 # 10);
                      v_tag_id := Some 1%Z |}) = false.
Proof. repeat split. Qed.

End DistributionClaim.

(** ** The display name of an account *)

Section DisplayClaim.

Import AccountAnalyticAccount DisplaySpec Examples.

Lemma append_assoc (s1 s2 s3 : string) :
  (s1 +:+ s2) +:+ s3 = s1 +:+ (s2 +:+ s3).
Proof.
  induction s1 as [|c s1 IH]; [done|].
  change (String c ((s1 +:+ s2) +:+ s3) = String c (s1 +:+ (s2 +:+ s3))).
  by rewrite IH.
Qed.

Lemma append_nil_r (s : string) : s +:+ "" = s.
Proof.
  induction s as [|c s IH]; [done|].
  change (String c (s +:+ "") = String c s). by rewrite IH.
Qed.

Lemma append_nil_l (s : string) : "" +:+ s = s.
Proof. reflexivity. Qed.

Lemma name_get_of_spec (partners : list ResPartner.partner) (a : account) :
  name_get_of partners a = spec_label partners a.
Proof.
  unfold name_get_of, spec_label, partner_segment, code_segment.
  destruct (partner_id a) as [pid|]; simpl.
  - destruct (ResPartner.browse partners pid) as [partner|]; [|done]. simpl.
    destruct (ResPartner.browse partners _) as [commercial|]; [|done]. simpl.
    do 2 f_equal.
    destruct (code a) as [c|]; [destruct (String.eqb c "")|]; simpl;
      by rewrite ?append_assoc, ?append_nil_l.
  - do 2 f_equal.
    destruct (code a) as [c|]; [destruct (String.eqb c "")|]; simpl;
      by rewrite ?append_assoc, ?append_nil_l, ?append_nil_r.
Qed.

(** C5: [name_get] pairs the id of every account with the label
    "[code] name", the bracketed segment being left out when the code is
    unset or empty, followed by " - " and the name of the commercial
    partner of the linked partner, left out when no partner is linked.
    Code "X1", name "Sales" and partner "Acme" give "[X1] Sales - Acme";
    name "Sales" without code and partner gives "Sales". *)
Theorem name_get_label :
  (forall (partners : list ResPartner.partner) (self : list account),
      name_get partners self = mapM (spec_label partners) self)
  ∧ name_get [acme; acme_contact] [sales_x1] = Some [(11%Z, "[X1] Sales - Acme")]
  ∧ name_get [acme; acme_contact] [sales_plain] = Some [(12%Z, "Sales")].
Proof.
  split; [|split; reflexivity].
  intros partners self. unfold name_get.
  apply mapM_ext. intros a. apply name_get_of_spec.
Qed.

(** The commercial partner of a contact gives the name, and an empty
    code gives no bracket. *)
Example name_get_contact :
  name_get [acme; acme_contact] [sales_contact] = Some [(13%Z, "Sales - Acme")].
Proof. reflexivity. Qed.

End DisplayClaim.

(** ** The company of a line *)

Section LineConstraint.

Import AccountAnalyticLine LineFields ConstraintSpec.


End LineConstraint.

Section LineClaims.

Import AccountAnalyticLine LineFields ConstraintSpec Examples.



(** Creating a line of company C2 on an account of company C1 fails;
    on an account without company, or with the account's company, it
    succeeds. *)
Example create_line_examples :
  is_validation_error (create example_env [] (example_vals 11 (Some 2%Z))) = true ∧
  is_ok (create example_env [] (example_vals 11 (Some 1%Z))) = true ∧
  is_ok (create example_env [] (example_vals 11 None)) = true ∧
  is_ok (create example_env [] (example_vals 12 (Some 2%Z))) = true.
Proof. repeat split. Qed.

(** C10: a line created without a user has as user the value under
    ['user_id'] in the context when the context has this key, and the
    id of the acting user otherwise; this is what [_default_user]
    returns. *)
Theorem line_default_user
    (env : environment) (table table' : list line) (vals : line_vals) :
  v_user_id vals = None ->
  create env table vals = Ok table' ->
  _default_user env =
    match context env !! "user_id" with
    | Some v => v
    | None => PInt (uid env)
    end
  ∧ exists r,
      table' = table ++ [r] ∧
      user_id r = match context env !! "user_id" with
                  | Some v => v
                  | None => PInt (uid env)
                  end.
Proof.
  intros Huser Hcreate.
  assert (_default_user env =
          match context env !! "user_id" with
          | Some v => v
          | None => PInt (uid env)
          end) as Hdefault.
  { unfold _default_user, dict_get. by destruct (context env !! "user_id"). }
  split; [done|].
  unfold create in Hcreate.
  destruct (v_name vals) as [n|]; [|done].
  destruct (v_account_id vals) as [a|]; [|done].
  destruct (_check_company_id env _); [|done].
  injection Hcreate as <-. eexists. split; [reflexivity|].
  cbn [user_id]. by rewrite Huser, <- Hdefault.
Qed.

Lemma line_default_user_witness :
  v_user_id (example_vals 11 None) = None ∧
  create example_env_user [L3] (example_vals 11 None) =
    Ok [L3; {| id := 4; name := "Invoice"; date := "2018-03-05"; amount := 30;
               account_id := 11; user_id := PInt 9; tag_ids := [];
               company_id := 1; currency_id := USD |}] ∧
  _default_user example_env_user = PInt 9 ∧
  exists r,
    [L3; {| id := 4; name := "Invoice"; date := "2018-03-05"; amount := 30;
            account_id := 11; user_id := PInt 9; tag_ids := [];
            company_id := 1; currency_id := USD |}] = [L3] ++ [r] ∧
    user_id r = PInt 9.
Proof.
  split; [reflexivity|]. split; [reflexivity|].
  apply (line_default_user example_env_user [L3] _ (example_vals 11 None));
    reflexivity.
Defined.

(** Without the key in the context the acting user is the default, and
    a value given to [create] is kept. *)
Example default_user_examples :
  _default_user example_env = PInt 2 ∧
  _default_user example_env_user = PInt 9.
Proof. split; reflexivity. Qed.

End LineClaims.

(** ** The lookup of accounts by name *)

Section NameSearch.

Import DomainTrees AccountAnalyticAccount LookupSpec.

Variable sql_match : string -> string -> string -> bool.
Variable super_name_search :
  string -> option domain -> string -> option nat -> option (list (Z * string)).

(** A search with a domain that has a meaning on every record keeps the
    records on which it holds, up to the cap. *)
Lemma search_filter {R} (field_leaf : leaf -> R -> option bool)
    (t : tree) (ts : list tree) (f : R -> bool) (limit : option nat)
    (table : list R) :
  (forall r, holds field_leaf (flatten_all (t :: ts)) r = Some (f r)) ->
  search field_leaf (flatten_all (t :: ts)) limit table =
  Some (apply_limit limit (filter (fun r => f r = true) table)).
Proof.
  intros Hf. unfold search. rewrite normalize_flatten_all.
  cbn [mbind option_bind]. by rewrite (select_filter field_leaf _ f).
Qed.

(** The sub-lookup of partners by name. *)
Lemma search_partners (partners : list ResPartner.partner)
    (operator name : string) (limit : option nat) :
  search (partner_leaf sql_match) [TLeaf (PStr "name", operator, PStr name)]
         limit partners =
  Some (partners_found sql_match partners operator name limit).
Proof.
  change [TLeaf (PStr "name", operator, PStr name)]
    with (flatten_all [Term (PStr "name", operator, PStr name)]).
  apply search_filter. intros p.
  rewrite (holds_flatten_all _ p _ _ [sql_match operator (ResPartner.name p) name]).
  - simpl. by rewrite andb_true_r.
  - by repeat constructor.
Qed.

(** The value on an account of the tree that the method builds. *)
Lemma denote_lookup_tree (partners : list ResPartner.partner)
    (operator name : string) (limit : option nat) (a : account) :
  denote (account_leaf sql_match) a
    (match partners_found sql_match partners operator name limit with
     | [] => Or (Term (PStr "code", operator, PStr name))
                (Term (PStr "name", operator, PStr name))
     | found =>
         Or (Or (Term (PStr "code", operator, PStr name))
                (Term (PStr "name", operator, PStr name)))
            (Term (PStr "partner_id", "in", PList (map ResPartner.id found)))
     end) =
  Some (code_or_name_matches sql_match operator name a
        || partner_found sql_match partners operator name limit a).
Proof.
  unfold partner_found, code_or_name_matches.
  destruct (partners_found sql_match partners operator name limit) as [|p found].
  - simpl. unfold leaf_holds. simpl. f_equal.
    destruct (partner_id a); by rewrite orb_false_r.
  - simpl. unfold leaf_holds. simpl. done.
Qed.

End NameSearch.

Section LookupClaim.

Import DomainTrees AccountAnalyticAccount LookupSpec Examples.

(** C6 (as amended): with an operator outside 'ilike', 'like', '=',
    '=like', '=ilike', [name_search] returns what the default lookup of
    the framework returns.  With one of these operators it first looks
    up the partners whose name matches, capped at the result limit, and
    then returns the labels of the accounts, capped at the same limit,
    whose code or name matches or whose linked partner is one of the
    partners found, and that satisfy the extra conditions [args] of the
    caller.  With a positive limit it returns at most that many
    results. *)
Theorem name_search_lookup
    (sql_match : string -> string -> string -> bool)
    (super_name_search :
       string -> option domain -> string -> option nat -> option (list (Z * string)))
    (accounts : list account) (partners : list ResPartner.partner)
    (name : string) (args : option domain) (operator : string)
    (limit : option nat)
    (conditions : list tree) (values : account -> list bool) :
  default [] args = flatten_all conditions ->
  (forall a, Forall2 (fun t v => denote (account_leaf sql_match) a t = Some v)
                     conditions (values a)) ->
  name_search sql_match super_name_search accounts partners name args operator limit =
    (if bool_decide (operator ∈ ["ilike"; "like"; "="; "=like"; "=ilike"])
     then
       name_get partners
         (apply_limit limit
            (filter (fun a =>
                       (code_or_name_matches sql_match operator name a
                        || partner_found sql_match partners operator name limit a)
                       && forallb Datatypes.id (values a) = true)
                    accounts))
     else super_name_search name args operator limit)
  ∧ (forall (n : nat) (res : list (Z * string)),
        operator ∈ ["ilike"; "like"; "="; "=like"; "=ilike"] ->
        limit = Some (S n) ->
        name_search sql_match super_name_search accounts partners name args
                    operator limit = Some res ->
        length res <= S n).
Proof.
  intros Hargs Hvalues.
  assert (name_search sql_match super_name_search accounts partners name args
                      operator limit =
    (if bool_decide (operator ∈ ["ilike"; "like"; "="; "=like"; "=ilike"])
     then
       name_get partners
         (apply_limit limit
            (filter (fun a =>
                       (code_or_name_matches sql_match operator name a
                        || partner_found sql_match partners operator name limit a)
                       && forallb Datatypes.id (values a) = true)
                    accounts))
     else super_name_search name args operator limit)) as Hsearch.
  { unfold name_search, name_search_operators.
    destruct (bool_decide (operator ∈ _)); [|done]. cbn [negb].
    rewrite search_partners. cbn [mbind option_bind]. rewrite Hargs.
    assert (forall t : tree,
      (forall a, denote (account_leaf sql_match) a t =
                 Some (code_or_name_matches sql_match operator name a
                       || partner_found sql_match partners operator name limit a)) ->
      search (account_leaf sql_match) (flatten t ++ flatten_all conditions)
             limit accounts =
      Some (apply_limit limit
              (filter (fun a =>
                         (code_or_name_matches sql_match operator name a
                          || partner_found sql_match partners operator name limit a)
                         && forallb Datatypes.id (values a) = true)
                      accounts))) as Hfilter.
    { intros t Ht.
      change (flatten t ++ flatten_all conditions) with (flatten_all (t :: conditions)).
      apply search_filter. intros a.
      rewrite (holds_flatten_all _ a t conditions
                 ((code_or_name_matches sql_match operator name a
                   || partner_found sql_match partners operator name limit a)
                  :: values a)); [done|].
      constructor; [apply Ht|apply Hvalues]. }
    pose proof (denote_lookup_tree sql_match partners operator name limit) as Htree.
    destruct (partners_found sql_match partners operator name limit) as [|p found].
    - pose proof (Hfilter _ Htree) as Hs. cbn [flatten app] in Hs.
      unfold OR_OPERATOR in Hs. cbn [app]. by rewrite Hs.
    - pose proof (Hfilter _ Htree) as Hs. cbn [flatten app] in Hs.
      unfold OR_OPERATOR in Hs. cbn [app]. by rewrite Hs. }
  split; [done|].
  intros n res Hop -> Hres. rewrite Hsearch in Hres.
  rewrite bool_decide_eq_true_2 in Hres by done.
  apply length_mapM in Hres. rewrite <- Hres.
  cbn [apply_limit]. rewrite length_take. lia.
Qed.

Lemma name_search_lookup_witness :
  default [] None = flatten_all [] ∧
  (forall a, Forall2 (fun t v => denote (account_leaf example_sql_match) a t = Some v)
                     [] []) ∧
  name_search example_sql_match no_super_name_search
              [sales_x1; sales_plain; shop] [acme; acme_contact; acme_twin]
              "Acme" None "=" (Some 100) =
    Some [(11%Z, "[X1] Sales - Acme"); (14%Z, "Shop - Acme")] ∧
  (forall (n : nat) (res : list (Z * string)),
      "=" ∈ ["ilike"; "like"; "="; "=like"; "=ilike"] ->
      Some 100 = Some (S n) ->
      name_search example_sql_match no_super_name_search
                  [sales_x1; sales_plain; shop] [acme; acme_contact; acme_twin]
                  "Acme" None "=" (Some 100) = Some res ->
      length res <= S n).
Proof.
  split; [reflexivity|]. split; [constructor|].
  destruct (name_search_lookup example_sql_match no_super_name_search
              [sales_x1; sales_plain; shop] [acme; acme_contact; acme_twin]
              "Acme" None "=" (Some 100) [] (fun _ => []))
    as [Hsearch Hcap]; [reflexivity|constructor|].
  split; [|exact Hcap]. rewrite Hsearch. reflexivity.
Defined.

(** An operator that is none of the five goes to the default lookup. *)
Example name_search_delegates :
  forall super accounts partners name args limit,
    name_search example_sql_match super accounts partners name args "not ilike" limit =
    super name args "not ilike" limit.
Proof. reflexivity. Qed.

(** The claim as worded -- every account whose partner's name matches
    is looked up -- fails where the cap cuts the partners found: with a
    limit of 1 and two partners named "Acme", the account linked to the
    second one is not returned, although nothing else is. *)
Lemma name_search_partner_cap :
  partner_name_matches example_sql_match [acme; acme_twin] "=" "Acme" shop = true ∧
  spec_name_search example_sql_match [shop] [acme; acme_twin] "Acme" "=" (Some 1) =
    Some [(14%Z, "Shop - Acme")] ∧
  name_search example_sql_match no_super_name_search [shop] [acme; acme_twin]
              "Acme" None "=" (Some 1) = Some [] ∧
  name_search example_sql_match no_super_name_search [shop] [acme; acme_twin]
              "Acme" None "=" (Some 1) ≠
  spec_name_search example_sql_match [shop] [acme; acme_twin] "Acme" "=" (Some 1).
Proof. repeat split. discriminate. Qed.

End LookupClaim.

(** * Further properties *)

(** ** The balance aggregator: independence of the accounts *)

Section BalanceSums.

Import LineFields AccountAnalyticAccount Spec.

Variable compute : Z -> Z -> Z -> Z.
Variable user_currency : Z.

Lemma total_cons (x : Z) (l : list Z) : total (x :: l) = (x + total l)%Z.
Proof. reflexivity. Qed.

Lemma total_negative_nonpos (l : list Z) :
  (total (filter (fun x => (x < 0)%Z) l) <= 0)%Z.
Proof.
  induction l as [|x l IH]; [done|].
  rewrite filter_cons. case_decide; rewrite ?total_cons; lia.
Qed.

Lemma total_negative_zero (l : list Z) :
  total (filter (fun x => (x < 0)%Z) l) = 0%Z <-> Forall (fun x => (0 <= x)%Z) l.
Proof.
  induction l as [|x l IH]; [by split|].
  rewrite filter_cons, Forall_cons.
  pose proof (total_negative_nonpos l).
  case_decide; rewrite ?total_cons.
  - split; [lia|]. intros [? _]. lia.
  - rewrite IH. split; [intros; split; [lia|done]|by intros [_ ?]].
Qed.

Lemma total_nonnegative_nonneg (l : list Z) :
  (0 <= total (filter (fun x => (0 <= x)%Z) l))%Z.
Proof.
  induction l as [|x l IH]; [done|].
  rewrite filter_cons. case_decide; rewrite ?total_cons; lia.
Qed.

Lemma total_nonnegative_zero (l : list Z) :
  total (filter (fun x => (0 <= x)%Z) l) = 0%Z <-> Forall (fun x => (x <= 0)%Z) l.
Proof.
  induction l as [|x l IH]; [by split|].
  rewrite filter_cons, Forall_cons.
  pose proof (total_nonnegative_nonneg l).
  case_decide; rewrite ?total_cons.
  - rewrite <- IH. split; [intros; split; lia|]. intros [? ?]. lia.
  - rewrite IH. split; [intros; split; [lia|done]|by intros [_ ?]].
Qed.

(** The result on one account is decided by the rows of that account. *)
Lemma spec_balances_own_rows (rows1 rows2 : list line) (a : Z) :
  filter (fun r => account_id r = a) rows1 = filter (fun r => account_id r = a) rows2 ->
  spec_balances compute user_currency rows1 a =
  spec_balances compute user_currency rows2 a.
Proof.
  intros Hrows.
  unfold spec_balances, spec_debit, spec_credit, negative_total, nonnegative_total,
    converted_amounts.
  by rewrite Hrows.
Qed.

End BalanceSums.

Section BalanceProperties.

Import LineFields AccountAnalyticAccount Spec Examples.

(** X2: what is assigned on the accounts of [self] depends only on the
    rows of these accounts: two lists of rows that have the same rows
    for every account of [self] give the same result. *)
Theorem aggregate_own_rows
    (compute : Z -> Z -> Z -> Z) (user_currency : Z)
    (rows rows' : list line) (self : list Z) :
  Forall (fun a => filter (fun r => account_id r = a) rows =
                   filter (fun r => account_id r = a) rows') self ->
  aggregate compute user_currency rows self =
  aggregate compute user_currency rows' self.
Proof.
  intros Hsame. rewrite !aggregate_spec. f_equal.
  apply map_ext_Forall. eapply Forall_impl; [exact Hsame|].
  intros a Ha. simpl. f_equal.
  by apply spec_balances_own_rows.
Qed.

Lemma aggregate_own_rows_witness :
  Forall (fun a => filter (fun r => account_id r = a) [L1; L4; L2] =
                   filter (fun r => account_id r = a) [L1; L2]) [account_A] ∧
  aggregate example_compute USD [L1; L4; L2] [account_A] =
  aggregate example_compute USD [L1; L2] [account_A].
Proof.
  assert (Forall (fun a => filter (fun r => account_id r = a) [L1; L4; L2] =
                           filter (fun r => account_id r = a) [L1; L2]) [account_A])
    as Hsame by (repeat constructor).
  split; [exact Hsame|].
  exact (aggregate_own_rows example_compute USD _ _ _ Hsame).
Defined.

(** X5: the debit of an account is 0 exactly when none of its rows has
    a negative converted amount, and its credit is 0 exactly when none
    has a positive one. *)
Theorem debit_credit_zero :
  forall (compute : Z -> Z -> Z -> Z) (user_currency : Z)
         (account_amounts : list line) (a : Z),
  exists b,
    aggregate compute user_currency account_amounts [a] = Some [(a, b)] ∧
    (debit b = 0%Z <->
     Forall (fun x => (0 <= x)%Z)
            (converted_amounts compute user_currency account_amounts a)) ∧
    (credit b = 0%Z <->
     Forall (fun x => (x <= 0)%Z)
            (converted_amounts compute user_currency account_amounts a)).
Proof.
  intros compute user_currency rows a.
  eexists. rewrite aggregate_spec. split; [reflexivity|]. simpl.
  unfold spec_credit, spec_debit, negative_total, nonnegative_total. split.
  - rewrite <- total_negative_zero. lia.
  - apply total_nonnegative_zero.
Qed.

End BalanceProperties.

(** ** The balance aggregator: from the context to the result *)

Section FilterShape.

Import DomainTrees AccountAnalyticAccount LineFields FilterSpec.

(** The filter in terms of the hints that are supplied, whatever their
    type: only the tags decide whether it can be built. *)
Lemma build_domain_supplied (context : gmap string pyval) (ids : list Z) :
  build_domain context ids =
  (domain ←
     match supplied context "tag_ids" with
     | Some v =>
         tags ← iter v;
         Some (AND [([TLeaf (PStr "account_id", "in", PList ids)]
                     ++ map TLeaf (hint_leaves context "from_date" "date" ">="))
                    ++ map TLeaf (hint_leaves context "to_date" "date" "<=");
                    OR (tag_domains tags)])
     | None =>
         Some (([TLeaf (PStr "account_id", "in", PList ids)]
                ++ map TLeaf (hint_leaves context "from_date" "date" ">="))
               ++ map TLeaf (hint_leaves context "to_date" "date" "<="))
     end;
   Some (domain ++ map TLeaf (hint_leaves context "company_ids" "company_id" "in"))).
Proof.
  unfold build_domain. rewrite !append_hint by done.
  assert (forall k : list Z -> domain, forall d : domain,
    (if truthy (dict_get context "tag_ids" PNone)
     then tags ← iter (dict_get context "tag_ids" PNone); Some (k tags)
     else Some d) =
    match supplied context "tag_ids" with
    | Some v => tags ← iter v; Some (k tags)
    | None => Some d
    end) as Htags.
  { intros k d. unfold dict_get, supplied.
    destruct (context !! "tag_ids") as [v|]; simpl; [|done].
    by destruct (truthy v). }
  rewrite (Htags (fun tags => AND [_; OR (tag_domains tags)])).
  destruct (supplied context "tag_ids") as [v|]; cbn [mbind option_bind].
  - destruct (iter v) as [tags|]; cbn [mbind option_bind]; [|done].
    by rewrite append_hint.
  - by rewrite append_hint.
Qed.

Lemma supplied_truthy (context : gmap string pyval) (key : string) (v : pyval) :
  supplied context key = Some v -> context !! key = Some v ∧ truthy v = true.
Proof.
  unfold supplied. destruct (context !! key) as [w|]; [|done].
  destruct (truthy w) eqn:Hw; [|done]. by intros [= <-].
Qed.

(** A filter that can be built is a sequence of trees, behind one
    ['&'] when tags are given. *)
Lemma build_domain_shape (context : gmap string pyval) (ids : list Z) (d : domain) :
  build_domain context ids = Some d ->
  d = (match tag_trees context with [] => [] | _ => [TOp AND_OPERATOR] end)
      ++ flatten_all (filter_trees context ids).
Proof.
  rewrite build_domain_supplied. unfold filter_trees, tag_trees.
  change (flatten_all (?t :: ?ts)) with (flatten t ++ flatten_all ts).
  rewrite !flatten_all_app, !flatten_all_terms.
  destruct (supplied context "tag_ids") as [v|] eqn:Hv; simpl.
  - destruct v as [| | | |tags]; simpl; try done.
    apply supplied_truthy in Hv as [_ Htruthy].
    destruct tags as [|tag tags]; [done|].
    rewrite OR_tag_domains, AND_pair.
    + intros [= <-]. unfold flatten_all. simpl. rewrite app_nil_r.
      by rewrite <- !app_assoc.
    + simpl. split; discriminate.
    + apply starts_properly_any_of.
  - intros [= <-]. by rewrite <- !app_assoc.
Qed.

(** On a well-typed context the trees of the filter have the meaning of
    the conjunction. *)
Lemma filter_trees_holds (context : gmap string pyval) (ids : list Z) (r : line) :
  well_typed context = true ->
  holds line_leaf
    ((match tag_trees context with [] => [] | _ => [TOp AND_OPERATOR] end)
     ++ flatten_all (filter_trees context ids)) r =
  Some (spec_filter context ids r).
Proof.
  unfold well_typed. rewrite !andb_true_iff. intros [[[Hfrom Hto] Htags] Hcomp].
  destruct (denote_from_date context r Hfrom) as (vf & Hvf & Ef).
  destruct (denote_to_date context r Hto) as (vt & Hvt & Et).
  destruct (denote_tag_trees context r) as (vg & Hvg & Eg).
  destruct (denote_company_ids context r Hcomp) as (vc & Hvc & Ec).
  assert (Forall2 (fun t v => denote line_leaf r t = Some v)
            (filter_trees context ids)
            (mem (account_id r) ids :: vf ++ vt ++ vg ++ vc)) as Hall.
  { unfold filter_trees. constructor; [done|]. repeat apply Forall2_app; done. }
  assert (forallb Datatypes.id (mem (account_id r) ids :: vf ++ vt ++ vg ++ vc) =
          spec_filter context ids r) as <-.
  { unfold spec_filter. simpl. rewrite !forallb_app, Ef, Et, Eg, Ec.
    by rewrite !andb_assoc. }
  unfold filter_trees in *.
  pose proof (holds_flatten_all line_leaf r _ _ _ Hall) as Hplain.
  pose proof (fun Hlen => holds_and_flatten_all line_leaf r _ _ Hlen Hall) as Hand.
  cbn [length] in Hand. rewrite !length_app in Hand.
  destruct (tag_trees context) as [|t ts].
  - exact Hplain.
  - apply Hand. simpl. lia.
Qed.

(** A domain of this shape is syntactically correct. *)
Lemma normalize_filter_trees (context : gmap string pyval) (ids : list Z) :
  is_Some (normalize_domain
    ((match tag_trees context with [] => [] | _ => [TOp AND_OPERATOR] end)
     ++ flatten_all (filter_trees context ids))).
Proof.
  unfold filter_trees.
  destruct (tag_trees context) as [|t ts] eqn:Htrees.
  - cbn [app]. rewrite normalize_flatten_all. eauto.
  - set (rest := map Term (hint_leaves context "from_date" "date" ">=") ++
                 map Term (hint_leaves context "to_date" "date" "<=") ++
                 (t :: ts) ++
                 map Term (hint_leaves context "company_ids" "company_id" "in")).
    assert (exists t2 ts2, rest = t2 :: ts2) as (t2 & ts2 & ->).
    { subst rest.
      destruct (map Term (hint_leaves context "from_date" "date" ">=")); simpl; [|eauto].
      destruct (map Term (hint_leaves context "to_date" "date" "<=")); simpl; eauto. }
    cbn [app]. rewrite and_flatten_all, normalize_flatten_all. eauto.
Qed.

(** The search with the filter of a well-typed context. *)
Lemma search_lines (context : gmap string pyval) (ids : list Z) (lines : list line) :
  well_typed context = true ->
  exists d,
    build_domain context ids = Some d ∧
    search line_leaf d None lines =
    Some (filter (fun r => spec_filter context ids r = true) lines).
Proof.
  intros Htyped. rewrite build_domain_trees by done.
  eexists. split; [reflexivity|]. unfold search.
  destruct (normalize_filter_trees context ids) as [n ->].
  cbn [mbind option_bind].
  rewrite (select_filter line_leaf _ (spec_filter context ids)); [done|].
  intros r. by apply filter_trees_holds.
Qed.

End FilterShape.

Section MethodProperties.

Import DomainTrees AccountAnalyticAccount LineFields FilterSpec Spec Examples.

(** X6: on a context whose supplied hints are dates and lists of ids
    the method never fails: it assigns on every account of [self] the
    debit, credit and balance of the lines of the table that satisfy the
    conjunction of the conditions. *)
Theorem compute_debit_credit_balance_well_typed
    (compute : Z -> Z -> Z -> Z) (user_currency : Z) (lines : list line)
    (context : gmap string pyval) (self : list Z) :
  well_typed context = true ->
  _compute_debit_credit_balance compute user_currency lines context self =
  Some (map (fun a =>
               (a, spec_balances compute user_currency
                     (filter (fun r => spec_filter context self r = true) lines) a))
            self).
Proof.
  intros Htyped. unfold _compute_debit_credit_balance.
  destruct (search_lines context self lines Htyped) as (d & -> & Hsearch).
  cbn [mbind option_bind]. rewrite Hsearch. cbn [mbind option_bind].
  apply aggregate_spec.
Qed.

Lemma compute_debit_credit_balance_well_typed_witness :
  well_typed example_context = true ∧
  _compute_debit_credit_balance example_compute USD [L1; L2; L4; L5]
    example_context [account_A; 8%Z] =
  Some (map (fun a =>
               (a, spec_balances example_compute USD
                     (filter (fun r => spec_filter example_context [account_A; 8%Z] r = true)
                             [L1; L2; L4; L5]) a))
            [account_A; 8%Z]).
Proof.
  split; [reflexivity|].
  apply (compute_debit_credit_balance_well_typed example_compute USD
           [L1; L2; L4; L5] example_context [account_A; 8%Z]).
  reflexivity.
Defined.

(** X7: a line of an account that is not in [self] never changes the
    result, wherever it stands in the table. *)
Theorem other_account_line_ignored
    (compute : Z -> Z -> Z -> Z) (user_currency : Z)
    (before after : list line) (l : line)
    (context : gmap string pyval) (self : list Z) :
  well_typed context = true ->
  account_id l ∉ self ->
  _compute_debit_credit_balance compute user_currency (before ++ l :: after)
    context self =
  _compute_debit_credit_balance compute user_currency (before ++ after)
    context self.
Proof.
  intros Htyped Hout. unfold _compute_debit_credit_balance.
  destruct (search_lines context self (before ++ l :: after) Htyped)
    as (d & Hd & Hwith).
  destruct (search_lines context self (before ++ after) Htyped)
    as (d' & Hd' & Hwithout).
  rewrite Hd in Hd'. injection Hd' as <-.
  rewrite Hd. cbn [mbind option_bind]. rewrite Hwith, Hwithout.
  rewrite !filter_app, filter_cons.
  rewrite decide_False; [done|].
  unfold spec_filter, mem. rewrite bool_decide_eq_false_2 by done. done.
Qed.

Lemma other_account_line_ignored_witness :
  well_typed example_context = true ∧
  (account_id L4 ∉ [account_A]) ∧
  _compute_debit_credit_balance example_compute USD ([L1] ++ L4 :: [L5])
    example_context [account_A] =
  _compute_debit_credit_balance example_compute USD ([L1] ++ [L5])
    example_context [account_A].
Proof.
  assert (account_id L4 ∉ [account_A]) as Hout by compute_done.
  split; [reflexivity|]. split; [exact Hout|].
  exact (other_account_line_ignored example_compute USD [L1] [L5] L4
           example_context [account_A] eq_refl Hout).
Defined.

(** X8: the method reads the context only through the four hints, and
    a hint whose value counts as false is as good as absent: two
    contexts that supply the same hints give the same result. *)
Theorem context_only_through_hints
    (compute : Z -> Z -> Z -> Z) (user_currency : Z) (lines : list line)
    (context1 context2 : gmap string pyval) (self : list Z) :
  Forall (fun key => supplied context1 key = supplied context2 key)
         ["from_date"; "to_date"; "tag_ids"; "company_ids"] ->
  _compute_debit_credit_balance compute user_currency lines context1 self =
  _compute_debit_credit_balance compute user_currency lines context2 self.
Proof.
  intros Hsame.
  inversion Hsame as [|? ? Hfrom H1]; subst.
  inversion H1 as [|? ? Hto H2]; subst.
  inversion H2 as [|? ? Htags H3]; subst.
  inversion H3 as [|? ? Hcomp _]; subst.
  unfold _compute_debit_credit_balance.
  rewrite !build_domain_supplied. unfold hint_leaves.
  by rewrite Hfrom, Hto, Htags, Hcomp.
Qed.

Lemma context_only_through_hints_witness :
  Forall (fun key => supplied idle_context key = supplied ∅ key)
         ["from_date"; "to_date"; "tag_ids"; "company_ids"] ∧
  _compute_debit_credit_balance example_compute USD [L1; L2; L4; L5]
    idle_context [account_A] =
  _compute_debit_credit_balance example_compute USD [L1; L2; L4; L5] ∅ [account_A].
Proof.
  assert (Forall (fun key => supplied idle_context key = supplied ∅ key)
                 ["from_date"; "to_date"; "tag_ids"; "company_ids"]) as Hsame
    by (repeat constructor).
  split; [exact Hsame|].
  exact (context_only_through_hints example_compute USD [L1; L2; L4; L5]
           idle_context ∅ [account_A] Hsame).
Defined.

(** X9: whatever the context, a filter that the method builds is
    syntactically correct prefix notation: the terms appended after the
    conjunction with the tags are implicitly conjoined, and the
    normalization accepts the result. *)
Theorem built_domain_is_valid
    (context : gmap string pyval) (ids : list Z) (d : domain) :
  build_domain context ids = Some d ->
  exists n trees,
    normalize_domain d = Some (replicate n (TOp AND_OPERATOR) ++ flatten_all trees) ∧
    trees ≠ [] ∧ n + 1 = length trees.
Proof.
  intros Hd. apply build_domain_shape in Hd as ->. unfold filter_trees.
  destruct (tag_trees context) as [|t ts] eqn:Htrees.
  - cbn [app]. rewrite normalize_flatten_all.
    eexists _, (_ :: _). split; [reflexivity|]. split; [done|]. simpl. lia.
  - set (rest := map Term (hint_leaves context "from_date" "date" ">=") ++
                 map Term (hint_leaves context "to_date" "date" "<=") ++
                 (t :: ts) ++
                 map Term (hint_leaves context "company_ids" "company_id" "in")).
    assert (exists t2 ts2, rest = t2 :: ts2) as (t2 & ts2 & ->).
    { subst rest.
      destruct (map Term (hint_leaves context "from_date" "date" ">=")); simpl; [|eauto].
      destruct (map Term (hint_leaves context "to_date" "date" "<=")); simpl; eauto. }
    cbn [app]. rewrite and_flatten_all, normalize_flatten_all.
    eexists _, (_ :: _). split; [reflexivity|]. split; [done|]. simpl. lia.
Qed.

Lemma built_domain_is_valid_witness :
  build_domain example_context [account_A] =
    Some [TOp "&";
          TLeaf (PStr "account_id", "in", PList [account_A]);
          TLeaf (PStr "date", ">=", PStr "2018-01-01");
          TOp "|";
          TLeaf (PStr "tag_ids", "in", PList [3%Z]);
          TLeaf (PStr "tag_ids", "in", PList [4%Z]);
          TLeaf (PStr "company_id", "in", PList [1%Z])] ∧
  exists n trees,
    normalize_domain
      [TOp "&";
       TLeaf (PStr "account_id", "in", PList [account_A]);
       TLeaf (PStr "date", ">=", PStr "2018-01-01");
       TOp "|";
       TLeaf (PStr "tag_ids", "in", PList [3%Z]);
       TLeaf (PStr "tag_ids", "in", PList [4%Z]);
       TLeaf (PStr "company_id", "in", PList [1%Z])] =
      Some (replicate n (TOp AND_OPERATOR) ++ flatten_all trees) ∧
    trees ≠ [] ∧ n + 1 = length trees.
Proof.
  split; [reflexivity|].
  apply (built_domain_is_valid example_context [account_A]). reflexivity.
Defined.

(** X10: when the tags of the context are a number other than 0 or the
    value True, which cannot be iterated, the method fails before it
    searches. *)
Theorem tags_not_iterable
    (compute : Z -> Z -> Z -> Z) (user_currency : Z) (lines : list line)
    (context : gmap string pyval) (self : list Z) (n : Z) :
  (context !! "tag_ids" = Some (PInt n) ∧ n ≠ 0%Z)
  ∨ context !! "tag_ids" = Some (PBool true) ->
  build_domain context self = None ∧
  _compute_debit_credit_balance compute user_currency lines context self = None.
Proof.
  intros Htags.
  assert (build_domain context self = None) as Hnone.
  { rewrite build_domain_supplied. unfold supplied.
    destruct Htags as [[-> Hn]| ->]; simpl; [|done].
    destruct (Z.eqb_spec n 0); done. }
  split; [done|]. unfold _compute_debit_credit_balance. by rewrite Hnone.
Qed.

Lemma tags_not_iterable_witness :
  ((broken_context !! "tag_ids" = Some (PInt 5) ∧ 5%Z ≠ 0%Z)
   ∨ broken_context !! "tag_ids" = Some (PBool true)) ∧
  build_domain broken_context [account_A] = None ∧
  _compute_debit_credit_balance example_compute USD [L1; L2] broken_context
    [account_A] = None.
Proof.
  assert ((broken_context !! "tag_ids" = Some (PInt 5) ∧ 5%Z ≠ 0%Z)
          ∨ broken_context !! "tag_ids" = Some (PBool true)) as Htags
    by (left; split; [reflexivity|discriminate]).
  split; [exact Htags|].
  exact (tags_not_iterable example_compute USD [L1; L2] broken_context
           [account_A] 5 Htags).
Defined.

End MethodProperties.

(** ** The complete name of a group: what the loop keeps *)

Section GroupLoop.

Import AccountAnalyticGroup GroupSpec.

Lemma step_skeleton (store store' : gmap Z group) (gid k : Z) :
  compute_complete_name_of store gid = Some store' ->
  skeleton <$> store' !! k = skeleton <$> store !! k.
Proof.
  intros (g & s & Hg & -> & _)%compute_complete_name_of_Some.
  destruct (decide (gid = k)) as [->|Hne].
  - by rewrite lookup_insert_eq, Hg.
  - by rewrite lookup_insert_ne.
Qed.

Lemma loop_skeleton (self : list Z) : forall store store' k,
  _compute_complete_name store self = Some store' ->
  skeleton <$> store' !! k = skeleton <$> store !! k.
Proof.
  induction self as [|gid self IH]; intros store store' k Hrun.
  - by injection Hrun as <-.
  - simpl in Hrun.
    destruct (compute_complete_name_of store gid) as [store1|] eqn:Hstep; [|done].
    simpl in Hrun. rewrite (IH _ _ _ Hrun). by eapply step_skeleton.
Qed.

Lemma loop_records_exist (self : list Z) : forall store store',
  _compute_complete_name store self = Some store' ->
  records_exist store self = true.
Proof.
  induction self as [|gid self IH]; intros store store' Hrun; [done|].
  simpl in Hrun.
  destruct (compute_complete_name_of store gid) as [store1|] eqn:Hstep; [|done].
  simpl in Hrun. simpl. apply andb_true_iff. split.
  - unfold record_exists, compute_complete_name_of in *.
    destruct (store !! gid) as [g|]; [|done]. simpl in Hstep.
    destruct (parent_id g) as [p|]; [|done].
    destruct (store !! p) eqn:Hp; [|done]. by apply bool_decide_eq_true.
  - rewrite <- (step_records_exist store store1 gid) by done. by eapply IH.
Qed.

Lemma loop_total (self : list Z) : forall store,
  records_exist store self = true ->
  is_Some (_compute_complete_name store self).
Proof.
  induction self as [|gid self IH]; intros store Hex; [by eexists|].
  simpl in Hex. apply andb_true_iff in Hex as [Hgid Hex].
  destruct (compute_complete_name_of_total store gid Hgid) as [store1 Hstep].
  simpl. rewrite Hstep. simpl. apply IH.
  by rewrite (step_records_exist store store1 gid).
Qed.

(** A group that is named after its parent is written with the value it
    has. *)
Lemma step_named (store : gmap Z group) (gid : Z) :
  named_after_parent store gid ->
  compute_complete_name_of store gid = Some store.
Proof.
  intros (g & Hg & Hname). unfold compute_complete_name_of. rewrite Hg. simpl.
  assert (forall s, s = complete_name g ->
            <[gid := set_complete_name s g]> store = store) as Hid.
  { intros s ->. apply insert_id. rewrite Hg. by destruct g. }
  destruct (parent_id g) as [p|].
  - destruct Hname as (parent & -> & Hcn). simpl. f_equal. by apply Hid.
  - f_equal. by apply Hid.
Qed.

End GroupLoop.

Section GroupProperties.

Import AccountAnalyticGroup GroupSpec Examples.

(** X11: recomputing changes nothing where the names are right: when
    every group of the record set is already named after its parent,
    the method returns the store as it is. *)
Theorem complete_name_fixpoint (store : gmap Z group) (self : list Z) :
  Forall (named_after_parent store) self ->
  _compute_complete_name store self = Some store.
Proof.
  induction 1 as [|gid self Hgid _ IH]; [done|].
  simpl. rewrite (step_named store gid Hgid). simpl. exact IH.
Qed.

Lemma complete_name_fixpoint_witness :
  Forall (named_after_parent named_groups) [3; 1; 2]%Z ∧
  _compute_complete_name named_groups [3; 1; 2]%Z = Some named_groups.
Proof.
  assert (Forall (named_after_parent named_groups) [3; 1; 2]%Z) as Hnamed.
  { repeat constructor.
    - eexists. split; [reflexivity|]. simpl. eexists. split; reflexivity.
    - eexists. split; reflexivity.
    - eexists. split; [reflexivity|]. simpl. eexists. split; reflexivity. }
  split; [exact Hnamed|].
  exact (complete_name_fixpoint named_groups [3; 1; 2]%Z Hnamed).
Defined.

(** X12: the method writes nothing but the complete names of the groups
    of the record set: the groups outside it are as before, and no group
    changes its name or its parent, appears or disappears. *)
Theorem complete_name_writes_only_names
    (store store' : gmap Z group) (self : list Z) :
  _compute_complete_name store self = Some store' ->
  (forall k, k ∉ self -> store' !! k = store !! k) ∧
  (forall k, skeleton <$> store' !! k = skeleton <$> store !! k) ∧
  dom store' = dom store.
Proof.
  intros Hrun. split; [|split].
  - intros k Hk. by eapply compute_complete_name_frame.
  - intros k. by eapply loop_skeleton.
  - apply set_eq. intros k. rewrite !elem_of_dom.
    pose proof (loop_skeleton self store store' k Hrun) as Hk.
    destruct (store' !! k), (store !! k); simpl in Hk; try done;
      split; intros [? ?]; done.
Qed.

Lemma complete_name_writes_only_names_witness :
  _compute_complete_name unnamed_groups [1; 2]%Z = Some half_named_groups ∧
  (forall k, k ∉ [1; 2]%Z -> half_named_groups !! k = unnamed_groups !! k) ∧
  (forall k, skeleton <$> half_named_groups !! k = skeleton <$> unnamed_groups !! k) ∧
  dom half_named_groups = dom unnamed_groups.
Proof.
  assert (_compute_complete_name unnamed_groups [1; 2]%Z = Some half_named_groups)
    as Hrun by reflexivity.
  split; [exact Hrun|].
  exact (complete_name_writes_only_names _ _ _ Hrun).
Defined.

(** X13: the method fails exactly when it has to read a record that
    does not exist: it returns if and only if every group of the record
    set, and the parent of each one that has a parent, is in the store. *)
Theorem complete_name_returns_iff :
  forall (store : gmap Z group) (self : list Z),
    is_Some (_compute_complete_name store self) <-> records_exist store self = true.
Proof.
  intros store self. split.
  - intros [store' Hrun]. by eapply loop_records_exist.
  - apply loop_total.
Qed.

(** X14: whatever the order of the record set, every group of it ends
    up with a complete name that is its own name when it has no parent,
    and that ends with " / " and its own name when it has one. *)
Theorem complete_name_ends_with_name
    (self : list Z) : forall (store store' : gmap Z group),
  _compute_complete_name store self = Some store' ->
  forall gid, gid ∈ self ->
    exists g,
      store' !! gid = Some g ∧
      match parent_id g with
      | Some _ => exists path, complete_name g = path +:+ " / " +:+ name g
      | None => complete_name g = name g
      end.
Proof.
  induction self as [|h self IH]; intros store store' Hrun gid Hin.
  - by apply elem_of_nil in Hin.
  - simpl in Hrun.
    destruct (compute_complete_name_of store h) as [store1|] eqn:Hstep; [|done].
    simpl in Hrun.
    destruct (decide (gid ∈ self)) as [Hrest|Hout]; [by eapply IH|].
    apply elem_of_cons in Hin as [->|Hin]; [|done].
    apply compute_complete_name_of_Some in Hstep as (g & s & Hg & -> & Hs).
    exists (set_complete_name s g). split.
    + rewrite (compute_complete_name_frame _ _ _ _ Hrun Hout).
      by rewrite lookup_insert_eq.
    + simpl. destruct (parent_id g) as [p|]; [|done].
      destruct Hs as (parent & _ & ->). eauto.
Qed.

Lemma complete_name_ends_with_name_witness :
  _compute_complete_name example_groups [2; 1]%Z = Some child_first_groups ∧
  (2%Z ∈ [2; 1]%Z) ∧
  exists g,
    child_first_groups !! 2%Z = Some g ∧
    match parent_id g with
    | Some _ => exists path, complete_name g = path +:+ " / " +:+ name g
    | None => complete_name g = name g
    end.
Proof.
  assert (_compute_complete_name example_groups [2; 1]%Z = Some child_first_groups)
    as Hrun by reflexivity.
  assert (2%Z ∈ [2; 1]%Z) as Hin by compute_done.
  split; [exact Hrun|]. split; [exact Hin|].
  exact (complete_name_ends_with_name [2; 1]%Z _ _ Hrun 2%Z Hin).
Defined.

End GroupProperties.

Section GroupPaths.

Import AccountAnalyticGroup GroupSpec.

Lemma join_path_snoc (n : string) (names : list string) (m : string) :
  join_path ((n :: names) ++ [m]) = join_path (n :: names) +:+ " / " +:+ m.
Proof. unfold join_path. simpl. by rewrite fold_left_app. Qed.

Lemma names_of_snoc (store : gmap Z group) (gids : list Z) (gid : Z) (g : group) :
  store !! gid = Some g ->
  names_of store (gids ++ [gid]) = names_of store gids ++ [name g].
Proof. intros Hg. unfold names_of. rewrite omap_app. simpl. by rewrite Hg. Qed.

Lemma names_of_skeleton (store store' : gmap Z group) (gids : list Z) :
  (forall k, skeleton <$> store' !! k = skeleton <$> store !! k) ->
  names_of store' gids = names_of store gids.
Proof.
  intros Hsk. unfold names_of. apply list_omap_ext, Forall2_same_length_lookup.
  split; [done|]. intros i gid gid' Hi Hi'. rewrite Hi in Hi'. injection Hi' as <-.
  specialize (Hsk gid).
  destruct (store' !! gid) as [g'|], (store !! gid) as [g|]; simpl in *; try done.
  by injection Hsk as -> _.
Qed.

Lemma descends_skeleton (store store' : gmap Z group) (chain : list Z) :
  (forall k, skeleton <$> store' !! k = skeleton <$> store !! k) ->
  forall parent, descends store' parent chain = descends store parent chain.
Proof.
  intros Hsk. induction chain as [|gid chain IH]; intros parent; [done|].
  simpl. rewrite IH. specialize (Hsk gid).
  destruct (store' !! gid) as [g'|], (store !! gid) as [g|]; simpl in *; try done.
  injection Hsk as _ Hparent. by rewrite Hparent.
Qed.

(** In a line of descent the parent of a group is the group before it. *)
Lemma descends_app (store : gmap Z group) (pre : list Z) : forall parent gid post,
  descends store parent (pre ++ gid :: post) = true ->
  exists g, store !! gid = Some g ∧
            parent_id g = from_option Some parent (last pre).
Proof.
  induction pre as [|p pre IH]; intros parent gid post Hchain.
  - simpl in Hchain. apply andb_true_iff in Hchain as [Hgid _].
    destruct (store !! gid) as [g|]; [|done].
    exists g. split; [done|]. by apply bool_decide_eq_true in Hgid.
  - simpl in Hchain. apply andb_true_iff in Hchain as [_ Hchain].
    destruct (IH _ _ _ Hchain) as (g & Hg & Hparent).
    exists g. split; [done|]. rewrite Hparent.
    destruct pre as [|q pre]; [done|].
    change (last (p :: q :: pre)) with (last (q :: pre)).
    destruct (last (q :: pre)) eqn:Hlast; [done|]. by apply last_None in Hlast.
Qed.

Lemma descends_records_exist (store : gmap Z group) (chain : list Z) : forall parent,
  descends store parent chain = true ->
  from_option (fun p => is_Some (store !! p)) True parent ->
  records_exist store chain = true.
Proof.
  induction chain as [|gid chain IH]; intros parent Hchain Hparent; [done|].
  simpl in Hchain. apply andb_true_iff in Hchain as [Hgid Hchain].
  simpl. apply andb_true_iff. split.
  - unfold record_exists. destruct (store !! gid) as [g|]; [|done].
    apply bool_decide_eq_true in Hgid. rewrite Hgid.
    destruct parent as [p|]; [|done]. by apply bool_decide_eq_true.
  - apply (IH (Some gid)); [done|]. simpl.
    destruct (store !! gid); [by eexists|done].
Qed.

Lemma descends_parents_first (store : gmap Z group) (chain : list Z) : forall parent,
  descends store parent chain = true ->
  NoDup chain ->
  from_option (fun p => p ∉ chain) True parent ->
  parents_first store chain = true.
Proof.
  induction chain as [|gid chain IH]; intros parent Hchain Hnodup Hparent; [done|].
  simpl in Hchain. apply andb_true_iff in Hchain as [Hgid Hchain].
  apply NoDup_cons in Hnodup as [Hfresh Hnodup].
  simpl. apply andb_true_iff. split.
  - unfold parent_of. destruct (store !! gid) as [g|]; [|done]. simpl.
    apply bool_decide_eq_true in Hgid. rewrite Hgid.
    destruct parent as [p|]; [|done].
    apply negb_true_iff, bool_decide_eq_false. exact Hparent.
  - by apply (IH (Some gid)).
Qed.

(** In a store where the groups of a line of descent from a root are
    named after their parents, each complete name is the path of names
    from the root. *)
Lemma named_descent_path (store : gmap Z group) (chain : list Z) :
  descends store None chain = true ->
  Forall (named_after_parent store) chain ->
  forall pre gid post,
    chain = pre ++ gid :: post ->
    exists g, store !! gid = Some g ∧
              complete_name g = join_path (names_of store (pre ++ [gid])).
Proof.
  intros Hchain Hnamed pre. rewrite Forall_forall in Hnamed.
  induction pre as [|p pre IH] using rev_ind; intros gid post Hsplit.
  - rewrite Hsplit in Hchain.
    destruct (descends_app store [] None gid post Hchain) as (g & Hg & Hparent).
    destruct (Hnamed gid) as (g' & Hg' & Hname); [rewrite Hsplit; by left|].
    rewrite Hg in Hg'. injection Hg' as <-. simpl in Hparent.
    rewrite Hparent in Hname. exists g. split; [done|].
    unfold names_of. simpl. by rewrite Hg.
  - destruct (IH p (gid :: post)) as (gp & Hgp & Hpath).
    { by rewrite Hsplit, <- app_assoc. }
    rewrite Hsplit in Hchain.
    destruct (descends_app store (pre ++ [p]) None gid post Hchain)
      as (g & Hg & Hparent).
    rewrite last_snoc in Hparent. simpl in Hparent.
    destruct (Hnamed gid) as (g' & Hg' & Hname).
    { rewrite Hsplit, elem_of_app, elem_of_cons. auto. }
    rewrite Hg in Hg'. injection Hg' as <-. rewrite Hparent in Hname.
    destruct Hname as (parent & Hparent' & Hcn).
    rewrite Hgp in Hparent'. injection Hparent' as <-.
    exists g. split; [done|].
    rewrite (names_of_snoc store (pre ++ [p]) gid g Hg).
    rewrite Hcn, Hpath, (names_of_snoc store pre p gp Hgp).
    destruct (names_of store pre) as [|n names]; [done|].
    rewrite <- app_comm_cons. by rewrite <- join_path_snoc.
Qed.

End GroupPaths.

Section GroupPathProperty.

Import AccountAnalyticGroup GroupSpec Examples.

(** X15: on a line of descent from a root, listed from the root down
    without repetition, the method returns, and the complete name of
    every group of the line is the path of the names from the root to
    the group, joined by " / ". *)
Theorem complete_name_is_path (store : gmap Z group) (chain : list Z) :
  descends store None chain = true ->
  NoDup chain ->
  exists store',
    _compute_complete_name store chain = Some store' ∧
    forall pre gid post,
      chain = pre ++ gid :: post ->
      exists g, store' !! gid = Some g ∧
                complete_name g = join_path (names_of store (pre ++ [gid])).
Proof.
  intros Hchain Hnodup.
  destruct (compute_complete_name_loop chain store) as (store' & Hrun & _ & Hnamed).
  { by apply (descends_records_exist store chain None). }
  { by apply (descends_parents_first store chain None). }
  exists store'. split; [done|].
  pose proof (fun k => loop_skeleton chain store store' k Hrun) as Hsk.
  intros pre gid post Hsplit.
  destruct (named_descent_path store' chain) with (pre := pre) (gid := gid) (post := post)
    as (g & Hg & Hpath); try done.
  - by rewrite (descends_skeleton store store').
  - by apply Forall_forall.
  - exists g. split; [done|]. by rewrite Hpath, (names_of_skeleton store store').
Qed.

Lemma complete_name_is_path_witness :
  descends unnamed_groups None [1; 2; 3]%Z = true ∧
  NoDup [1; 2; 3]%Z ∧
  exists store',
    _compute_complete_name unnamed_groups [1; 2; 3]%Z = Some store' ∧
    forall pre gid post,
      [1; 2; 3]%Z = pre ++ gid :: post ->
      exists g, store' !! gid = Some g ∧
                complete_name g = join_path (names_of unnamed_groups (pre ++ [gid])).
Proof.
  assert (NoDup [1; 2; 3]%Z) as Hnodup by compute_done.
  split; [reflexivity|]. split; [exact Hnodup|].
  exact (complete_name_is_path unnamed_groups [1; 2; 3]%Z eq_refl Hnodup).
Defined.

(** The path of the grandchild of the example. *)
Example complete_name_path_example :
  (fun store => complete_name <$> store !! 3%Z)
    <$> _compute_complete_name unnamed_groups [1; 2; 3]%Z =
  Some (Some "Assets / Fixed / Cars")
  ∧ join_path (names_of unnamed_groups [1; 2; 3]%Z) = "Assets / Fixed / Cars".
Proof. split; vm_compute; reflexivity. Qed.

End GroupPathProperty.

(** ** Display and lookup: what is returned *)

Section DisplayProperties.

Import AccountAnalyticAccount DisplaySpec Examples.

Lemma name_get_of_resolves (partners : list ResPartner.partner) (a : account) :
  is_Some (name_get_of partners a) <-> partner_resolves partners a = true.
Proof.
  unfold name_get_of, partner_resolves.
  destruct (partner_id a) as [pid|]; simpl; [|by split; eauto].
  destruct (ResPartner.browse partners pid) as [partner|]; simpl;
    [|by split; [intros [? ?]|]].
  rewrite bool_decide_eq_true.
  destruct (ResPartner.browse partners _) as [commercial|]; simpl.
  - split; eauto.
  - split; intros [? ?]; done.
Qed.

Lemma name_get_of_id (partners : list ResPartner.partner) (a : account)
    (pair : Z * string) :
  name_get_of partners a = Some pair -> pair.1 = id a.
Proof.
  unfold name_get_of. destruct (partner_id a) as [pid|]; simpl.
  - destruct (ResPartner.browse partners pid) as [partner|]; [|done]. simpl.
    destruct (ResPartner.browse partners _) as [commercial|]; [|done]. simpl.
    by intros [= <-].
  - by intros [= <-].
Qed.

(** X16: [name_get] returns only when, for every account that links a
    partner, the partner and its commercial partner are records -- it
    fails as soon as one of them has to be read and does not exist; and
    when it returns, it gives one pair per account, in the order of the
    record set, each with the id of its account. *)
Theorem name_get_pairs :
  forall (partners : list ResPartner.partner) (self : list account),
    (forallb (partner_resolves partners) self = false ->
     name_get partners self = None) ∧
    (forall res, name_get partners self = Some res ->
       forallb (partner_resolves partners) self = true ∧
       map fst res = map id self).
Proof.
  intros partners self. unfold name_get.
  assert (forall res, mapM (name_get_of partners) self = Some res ->
            forallb (partner_resolves partners) self = true ∧
            map fst res = map id self) as Hreturns.
  { intros res Hres. apply mapM_Some in Hres.
    induction Hres as [|a pair self res Ha _ [IHr IHi]]; [done|].
    simpl. split.
    - apply andb_true_iff. split; [|done].
      apply name_get_of_resolves. by rewrite Ha.
    - by rewrite IHi, (name_get_of_id partners a pair Ha). }
  split; [|exact Hreturns].
  intros Hmissing.
  destruct (mapM (name_get_of partners) self) as [res|] eqn:Hres; [|done].
  destruct (Hreturns res eq_refl) as [Hall _]. congruence.
Qed.

(** An account whose partner is not a record makes the call fail. *)
Example name_get_missing_partner :
  name_get [acme] [sales_plain; sales_contact] = None ∧
  partner_resolves [acme] sales_contact = false.
Proof. split; reflexivity. Qed.

End DisplayProperties.

Section LookupResults.

Import DomainTrees AccountAnalyticAccount LookupSpec.

Variable sql_match : string -> string -> string -> bool.
Variable super_name_search :
  string -> option domain -> string -> option nat -> option (list (Z * string)).

(** With one of its five operators the method is a capped search
    followed by [name_get]. *)
Lemma name_search_in_set (accounts : list account)
    (partners : list ResPartner.partner) (name : string) (args : option domain)
    (operator : string) (limit : option nat)
    (conditions : list tree) (values : account -> list bool) :
  operator ∈ name_search_operators ->
  default [] args = flatten_all conditions ->
  (forall a, Forall2 (fun t v => denote (account_leaf sql_match) a t = Some v)
                     conditions (values a)) ->
  name_search sql_match super_name_search accounts partners name args operator limit =
  name_get partners
    (apply_limit limit
       (filter (fun a =>
                  (code_or_name_matches sql_match operator name a
                   || partner_found sql_match partners operator name limit a)
                  && forallb Datatypes.id (values a) = true)
               accounts)).
Proof.
  intros Hop Hargs Hvalues. unfold name_search.
  rewrite bool_decide_eq_true_2 by done. cbn [negb].
  rewrite search_partners. cbn [mbind option_bind]. rewrite Hargs.
  pose proof (denote_lookup_tree sql_match partners operator name limit) as Htree.
  set (keep := fun a =>
         (code_or_name_matches sql_match operator name a
          || partner_found sql_match partners operator name limit a)
         && forallb Datatypes.id (values a)).
  assert (forall t : tree,
    (forall a, denote (account_leaf sql_match) a t =
               Some (code_or_name_matches sql_match operator name a
                     || partner_found sql_match partners operator name limit a)) ->
    search (account_leaf sql_match) (flatten t ++ flatten_all conditions)
           limit accounts =
    Some (apply_limit limit (filter (fun a => keep a = true) accounts))) as Hfilter.
  { intros t Ht.
    change (flatten t ++ flatten_all conditions) with (flatten_all (t :: conditions)).
    apply search_filter. intros a.
    rewrite (holds_flatten_all _ a t conditions
               ((code_or_name_matches sql_match operator name a
                 || partner_found sql_match partners operator name limit a)
                :: values a)); [done|].
    constructor; [apply Ht|apply Hvalues]. }
  destruct (partners_found sql_match partners operator name limit) as [|p found].
  - pose proof (Hfilter _ Htree) as Hs. cbn [flatten app] in Hs.
    unfold OR_OPERATOR in Hs. cbn [app]. by rewrite Hs.
  - pose proof (Hfilter _ Htree) as Hs. cbn [flatten app] in Hs.
    unfold OR_OPERATOR in Hs. cbn [app]. by rewrite Hs.
Qed.

Lemma elem_of_apply_limit {A} (limit : option nat) (l : list A) (x : A) :
  x ∈ apply_limit limit l -> x ∈ l.
Proof.
  destruct limit as [[|n]|]; simpl; try done.
  intros Hx. by apply (subseteq_take (S n) l).
Qed.

Lemma apply_limit_sublist {A} (limit : option nat) (l : list A) :
  apply_limit limit l `sublist_of` l.
Proof. destruct limit as [[|n]|]; simpl; try done. apply sublist_take. Qed.

Lemma browse_elem_of (partners : list ResPartner.partner) (pid : Z)
    (p : ResPartner.partner) :
  ResPartner.browse partners pid = Some p -> p ∈ partners ∧ ResPartner.id p = pid.
Proof.
  unfold ResPartner.browse. intros [Hin Hid]%find_some.
  split; [by apply list_elem_of_In|]. by apply Z.eqb_eq.
Qed.

(** With unique ids, [browse] finds the record that has the id. *)
Lemma browse_unique (partners : list ResPartner.partner) (p : ResPartner.partner) :
  NoDup (map ResPartner.id partners) ->
  p ∈ partners ->
  ResPartner.browse partners (ResPartner.id p) = Some p.
Proof.
  unfold ResPartner.browse.
  induction partners as [|q partners IH]; intros Hnodup Hin.
  - by apply elem_of_nil in Hin.
  - simpl in Hnodup. apply NoDup_cons in Hnodup as [Hfresh Hnodup]. simpl.
    apply elem_of_cons in Hin as [->|Hin]; [by rewrite Z.eqb_refl|].
    destruct (Z.eqb_spec (ResPartner.id q) (ResPartner.id p)) as [Heq|_]; [|by apply IH].
    exfalso. apply Hfresh. rewrite Heq. by apply list_elem_of_fmap_2.
Qed.

(** An account found through its partner has a partner whose name
    matches. *)
Lemma partner_found_matches (partners : list ResPartner.partner)
    (operator name : string) (limit : option nat) (a : account) :
  NoDup (map ResPartner.id partners) ->
  partner_found sql_match partners operator name limit a = true ->
  partner_name_matches sql_match partners operator name a = true.
Proof.
  intros Hnodup. unfold partner_found, partner_name_matches, partners_found.
  destruct (partner_id a) as [pid|]; [|done].
  intros Hfound%bool_decide_eq_true.
  apply list_elem_of_fmap in Hfound as (q & -> & Hq).
  apply elem_of_apply_limit, list_elem_of_filter in Hq as [Hmatch Hq].
  by rewrite (browse_unique partners q Hnodup Hq).
Qed.

(** When the cap does not cut the partners found, every account whose
    partner's name matches is found through its partner. *)
Lemma partner_matches_found (partners : list ResPartner.partner)
    (operator name : string) (limit : option nat) (a : account) :
  partners_found sql_match partners operator name limit =
  partners_found sql_match partners operator name None ->
  partner_name_matches sql_match partners operator name a = true ->
  partner_found sql_match partners operator name limit a = true.
Proof.
  intros Hcut. unfold partner_found, partner_name_matches. rewrite Hcut.
  unfold partners_found. simpl.
  destruct (partner_id a) as [pid|]; [|done].
  destruct (ResPartner.browse partners pid) as [q|] eqn:Hq; [|done].
  apply browse_elem_of in Hq as [Hq <-]. intros Hmatch.
  apply bool_decide_eq_true, list_elem_of_fmap_2, list_elem_of_filter. done.
Qed.

End LookupResults.

Section LookupProperties.

Import DomainTrees AccountAnalyticAccount LookupSpec Examples.

(** X17: with one of the five operators and unique partner ids, what
    [name_search] returns are the labels of accounts of the table, in
    the order of the table, each of which matches by its code, its name
    or the name of its partner, and satisfies the extra conditions of
    the caller: the cap can lose accounts, it never adds one. *)
Theorem name_search_results_match
    (sql_match : string -> string -> string -> bool)
    (super_name_search :
       string -> option domain -> string -> option nat -> option (list (Z * string)))
    (accounts : list account) (partners : list ResPartner.partner)
    (name : string) (args : option domain) (operator : string)
    (limit : option nat)
    (conditions : list tree) (values : account -> list bool)
    (res : list (Z * string)) :
  operator ∈ ["ilike"; "like"; "="; "=like"; "=ilike"] ->
  default [] args = flatten_all conditions ->
  (forall a, Forall2 (fun t v => denote (account_leaf sql_match) a t = Some v)
                     conditions (values a)) ->
  NoDup (map ResPartner.id partners) ->
  name_search sql_match super_name_search accounts partners name args operator limit
    = Some res ->
  exists recs,
    recs `sublist_of` accounts ∧
    Forall (fun a =>
              code_or_name_matches sql_match operator name a
              || partner_name_matches sql_match partners operator name a = true)
           recs ∧
    Forall (fun a => forallb Datatypes.id (values a) = true) recs ∧
    name_get partners recs = Some res.
Proof.
  intros Hop Hargs Hvalues Hnodup.
  rewrite (name_search_in_set sql_match super_name_search accounts partners name
             args operator limit conditions values Hop Hargs Hvalues).
  intros Hres. eexists. split; [|split; [|split; [|exact Hres]]].
  - etrans; [apply apply_limit_sublist|]. apply sublist_filter.
  - apply Forall_forall. intros a Ha.
    apply elem_of_apply_limit, list_elem_of_filter in Ha as [Ha _].
    apply andb_true_iff in Ha as [Ha _]. apply orb_true_iff in Ha as [Ha|Ha].
    + by rewrite Ha.
    + rewrite (partner_found_matches sql_match partners operator name limit a Hnodup Ha).
      by rewrite orb_true_r.
  - apply Forall_forall. intros a Ha.
    apply elem_of_apply_limit, list_elem_of_filter in Ha as [Ha _].
    by apply andb_true_iff in Ha as [_ Ha].
Qed.

Lemma name_search_results_match_witness :
  ("=" ∈ ["ilike"; "like"; "="; "=like"; "=ilike"]) ∧
  default [] None = flatten_all [] ∧
  (forall a, Forall2 (fun t v => denote (account_leaf example_sql_match) a t = Some v)
                     [] []) ∧
  NoDup (map ResPartner.id [acme; acme_contact; acme_twin]) ∧
  name_search example_sql_match no_super_name_search
              [sales_x1; sales_plain; shop] [acme; acme_contact; acme_twin]
              "Acme" None "=" (Some 1) = Some [(11%Z, "[X1] Sales - Acme")] ∧
  exists recs,
    recs `sublist_of` [sales_x1; sales_plain; shop] ∧
    Forall (fun a =>
              code_or_name_matches example_sql_match "=" "Acme" a
              || partner_name_matches example_sql_match
                   [acme; acme_contact; acme_twin] "=" "Acme" a = true)
           recs ∧
    Forall (fun a => forallb Datatypes.id (@nil bool) = true) recs ∧
    name_get [acme; acme_contact; acme_twin] recs = Some [(11%Z, "[X1] Sales - Acme")].
Proof.
  assert ("=" ∈ ["ilike"; "like"; "="; "=like"; "=ilike"]) as Hop by compute_done.
  assert (NoDup (map ResPartner.id [acme; acme_contact; acme_twin])) as Hnodup
    by compute_done.
  assert (forall a, Forall2 (fun t v => denote (account_leaf example_sql_match) a t = Some v)
                            [] []) as Hvalues by constructor.
  split; [exact Hop|]. split; [reflexivity|]. split; [exact Hvalues|].
  split; [exact Hnodup|]. split; [reflexivity|].
  exact (name_search_results_match example_sql_match no_super_name_search
           [sales_x1; sales_plain; shop] [acme; acme_contact; acme_twin]
           "Acme" None "=" (Some 1) [] (fun _ => []) _ Hop eq_refl Hvalues Hnodup
           eq_refl).
Defined.

(** X18: with one of the five operators, unique partner ids and no
    extra conditions, when the cap does not cut the partners found --
    as with no limit -- [name_search] returns the labels of the accounts
    whose code, name or partner's name matches, up to the limit. *)
Theorem name_search_uncut
    (sql_match : string -> string -> string -> bool)
    (super_name_search :
       string -> option domain -> string -> option nat -> option (list (Z * string)))
    (accounts : list account) (partners : list ResPartner.partner)
    (name operator : string) (limit : option nat) :
  operator ∈ ["ilike"; "like"; "="; "=like"; "=ilike"] ->
  NoDup (map ResPartner.id partners) ->
  partners_found sql_match partners operator name limit =
  partners_found sql_match partners operator name None ->
  name_search sql_match super_name_search accounts partners name None operator limit =
  spec_name_search sql_match accounts partners name operator limit.
Proof.
  intros Hop Hnodup Hcut.
  rewrite (name_search_in_set sql_match super_name_search accounts partners name
             None operator limit [] (fun _ => []) Hop eq_refl);
    [|intros a; constructor].
  unfold spec_name_search. do 2 f_equal.
  apply list_filter_iff. intros a. simpl. rewrite andb_true_r, !orb_true_iff.
  split; (intros [Ha|Ha]; [by left|right]).
  - by apply (partner_found_matches sql_match partners operator name limit).
  - by apply partner_matches_found.
Qed.

Lemma name_search_uncut_witness :
  ("=" ∈ ["ilike"; "like"; "="; "=like"; "=ilike"]) ∧
  NoDup (map ResPartner.id [acme; acme_contact; acme_twin]) ∧
  partners_found example_sql_match [acme; acme_contact; acme_twin] "=" "Acme" (Some 2) =
  partners_found example_sql_match [acme; acme_contact; acme_twin] "=" "Acme" None ∧
  name_search example_sql_match no_super_name_search
              [sales_x1; sales_plain; shop] [acme; acme_contact; acme_twin]
              "Acme" None "=" (Some 2) =
  spec_name_search example_sql_match [sales_x1; sales_plain; shop]
                   [acme; acme_contact; acme_twin] "Acme" "=" (Some 2).
Proof.
  assert ("=" ∈ ["ilike"; "like"; "="; "=like"; "=ilike"]) as Hop by compute_done.
  assert (NoDup (map ResPartner.id [acme; acme_contact; acme_twin])) as Hnodup
    by compute_done.
  split; [exact Hop|]. split; [exact Hnodup|]. split; [reflexivity|].
  exact (name_search_uncut example_sql_match no_super_name_search
           [sales_x1; sales_plain; shop] [acme; acme_contact; acme_twin]
           "Acme" "=" (Some 2) Hop Hnodup eq_refl).
Defined.

End LookupProperties.

(** ** Invariants of the tables *)

Section CompanyInvariant.

Import AccountAnalyticLine LineFields ConstraintSpec Examples.

Lemma no_mismatch_Forall (env : environment) (table : list line) :
  no_mismatch env table = true <-> Forall (fun r => mismatch env r = false) table.
Proof.
  unfold no_mismatch. induction table as [|r table IH]; simpl.
  - split; [constructor|done].
  - rewrite andb_true_iff, Forall_cons, IH, negb_true_iff. done.
Qed.

(** A check that passes has seen no line that breaks the constraint,
    whether or not the accounts are records. *)
Lemma check_ok_no_mismatch (env : environment) (self : list line) :
  _check_company_id env self = Ok () ->
  Forall (fun r => mismatch env r = false) self.
Proof.
  induction self as [|r self IH]; [constructor|].
  simpl. rewrite Forall_cons. unfold mismatch at 1.
  destruct (browse_account env (account_id r)) as [account|]; [|done].
  destruct (AccountAnalyticAccount.company_id account) as [c|].
  - destruct (company_id r =? c)%Z; simpl; [|done].
    intros Hrest. split; [done|by apply IH].
  - intros Hrest. split; [done|by apply IH].
Qed.

(** Values that write neither the company nor the account leave the
    constraint of a line as it is. *)
Lemma update_mismatch (env : environment) (vals : line_vals) (r : line) :
  constrains_triggered vals = false ->
  mismatch env (update env vals r) = mismatch env r.
Proof.
  unfold constrains_triggered. intros Hnot%bool_decide_eq_false.
  unfold mismatch, update. simpl.
  destruct (v_company_id vals) as [c|]; [exfalso; apply Hnot; left; by eexists|].
  destruct (v_account_id vals) as [a|]; [exfalso; apply Hnot; right; by eexists|].
  done.
Qed.

(** X19: [create] and [write] keep the table free of lines that break
    the company constraint: if no line of the table breaks it, none
    does in the table left by a [create] or by a [write], whatever the
    values and whether the operation succeeds or raises. *)
Theorem company_constraint_kept
    (env : environment) (table : list line) (ids : list Z) (vals : line_vals) :
  no_mismatch env table = true ->
  no_mismatch env (committed table (create env table vals)) = true ∧
  no_mismatch env (committed table (write env table ids vals)) = true.
Proof.
  rewrite !no_mismatch_Forall. intros Htable. split.
  - unfold create.
    destruct (v_name vals) as [n|]; [|done].
    destruct (v_account_id vals) as [a|]; [|done].
    match goal with
    | |- context [_check_company_id env [?r]] =>
        destruct (_check_company_id env [r]) as [[]|e] eqn:Hcheck
    end; [|done].
    simpl. apply Forall_app. split; [done|].
    by apply check_ok_no_mismatch.
  - unfold write.
    destruct (constrains_triggered vals) eqn:Htrig.
    + match goal with
      | |- context [_check_company_id env ?l] =>
          destruct (_check_company_id env l) as [[]|e] eqn:Hcheck
      end; [|done].
      simpl. apply check_ok_no_mismatch in Hcheck.
      rewrite Forall_forall in Hcheck, Htable.
      apply Forall_forall. intros r' Hr'.
      apply list_elem_of_fmap in Hr' as (r & -> & Hr).
      unfold mem. destruct (bool_decide (id r ∈ ids)) eqn:Hin.
      * apply Hcheck. apply list_elem_of_filter. split.
        -- by apply bool_decide_eq_true in Hin.
        -- apply list_elem_of_fmap. exists r. unfold mem. by rewrite Hin.
      * by apply Htable.
    + simpl. apply Forall_fmap. eapply Forall_impl; [exact Htable|].
      intros r Hr. simpl. destruct (mem (id r) ids); [|done].
      by rewrite update_mismatch.
Qed.

Lemma company_constraint_kept_witness :
  no_mismatch example_env [L3] = true ∧
  no_mismatch example_env
    (committed [L3] (create example_env [L3] (example_vals 11 (Some 2%Z)))) = true ∧
  no_mismatch example_env
    (committed [L3] (write example_env [L3] [3%Z] (example_vals 11 (Some 2%Z)))) = true.
Proof.
  split; [reflexivity|].
  apply (company_constraint_kept example_env [L3] [3%Z] (example_vals 11 (Some 2%Z))).
  reflexivity.
Defined.

End CompanyInvariant.

Section PercentageInvariant.

Import AccountAnalyticDistribution DistributionSpec.

(** X20: every [create] that succeeds keeps the percentages of the
    table within bounds, also when the percentage is left to its
    default: if all rows of the table have 0 ≤ percentage ≤ 100, so have
    all rows of the table with the new row. *)
Theorem percentage_bounds_kept
    (table table' : list distribution) (vals : distribution_vals) :
  Forall in_range table ->
  create table vals = Ok table' ->
  Forall in_range table' ∧ length table' = S (length table).
Proof.
  intros Htable. unfold create.
  destruct (v_account_id vals) as [a|]; [|done].
  destruct (v_tag_id vals) as [t|]; [|done].
  rewrite enforce_percentage. cbn [percentage].
  destruct (Qle_bool 0 _) eqn:Hlow; [|done].
  destruct (Qle_bool _ 100) eqn:Hhigh; [|done].
  simpl. intros [= <-]. split.
  - apply Forall_app. split; [done|]. constructor; [|done].
    split; by apply Qle_bool_iff.
  - rewrite length_app. simpl. lia.
Qed.

Lemma percentage_bounds_kept_witness :
  Forall in_range [] ∧
  create [] {| v_account_id := Some 1%Z; v_percentage := None; v_tag_id := Some 1%Z |} =
    Ok [{| account_id := 1; percentage := 100; tag_id := 1 |}] ∧
  Forall in_range [{| account_id := 1; percentage := 100; tag_id := 1 |}] ∧
  length [{| account_id := 1%Z; percentage := 100; tag_id := 1%Z |}] = 1.
Proof.
  split; [constructor|]. split; [reflexivity|].
  apply (percentage_bounds_kept [] _
           {| v_account_id := Some 1%Z; v_percentage := None; v_tag_id := Some 1%Z |});
    [constructor|reflexivity].
Defined.

End PercentageInvariant.
